(** * pyrobud: command registration and invocation context

    A shallow embedding of [pyrobud/command.py]: the metadata decorators
    [desc], [usage] and [alias], the [Command] descriptor and the per-message
    [Context] with its lazy [args] attribute and its [respond] /
    [respond_multi] protocol.

    Python objects that the module mutates are kept in an explicit run-time
    state: function objects live in a heap of attribute dictionaries, list
    objects carry the identity they were allocated with, and every call of
    the external [bot.respond] primitive is appended to a log. Code that can
    raise returns either an exception or a value. *)

From Stdlib Require Import ZArith String Ascii Bool.
From stdpp Require Import base option list strings gmap.

Local Open Scope string_scope.
Local Open Scope Z_scope.

(* ===================================================================== *)
(** * Values *)
(* ===================================================================== *)

(** A reference to an object that owns an attribute dictionary. *)
Definition loc := positive.

(** [tg.custom.Message]: the two renderings of its content that
    [Context.__init__] reads, and an identifier telling messages apart. *)
Module Message.
Record t := mk { id : positive; text : string; raw_text : string }.

#[global] Instance eq_dec : EqDecision t.
Proof. solve_decision. Defined.
End Message.

(** A Python [list] of strings: its items and the identity it was
    allocated with. *)
Record ListObj := mkList { list_id : positive; list_items : list string }.

#[global] Instance ListObj_eq_dec : EqDecision ListObj.
Proof. solve_decision. Defined.

Inductive PyVal :=
| VNone
| VBool (b : bool)
| VInt (z : Z)
| VStr (s : string)
| VTuple (items : list string)
| VList (o : ListObj)
| VMsg (m : Message.t)
| VRef (l : loc)
| VMethod (name : string).

#[global] Instance PyVal_eq_dec : EqDecision PyVal.
Proof. solve_decision. Defined.

(** Truth value testing, as [if x], [x or y] and [x and y] apply it. Messages,
    bound methods and plain objects define neither [__bool__] nor [__len__]. *)
Definition truthy (v : PyVal) : bool :=
  match v with
  | VNone => false
  | VBool b => b
  | VInt z => negb (z =? 0)
  | VStr s => negb (String.eqb s "")
  | VTuple items => negb (bool_decide (items = []))
  | VList o => negb (bool_decide (list_items o = []))
  | VMsg _ | VRef _ | VMethod _ => true
  end.

(** The [==] operator: lists compare by content, booleans are integers,
    plain objects compare by identity. *)
Definition py_eq (a b : PyVal) : bool :=
  match a, b with
  | VNone, VNone => true
  | VBool x, VBool y => bool_decide (x = y)
  | VBool x, VInt z | VInt z, VBool x => Z.b2z x =? z
  | VInt x, VInt y => x =? y
  | VStr x, VStr y => String.eqb x y
  | VTuple x, VTuple y => bool_decide (x = y)
  | VList x, VList y => bool_decide (list_items x = list_items y)
  | VMsg x, VMsg y => bool_decide (x = y)
  | VRef x, VRef y => bool_decide (x = y)
  | VMethod x, VMethod y => String.eqb x y
  | _, _ => false
  end.

(** The value of an [Optional[Message]] field. *)
Definition of_optional (r : option Message.t) : PyVal :=
  match r with
  | Some m => VMsg m
  | None => VNone
  end.

(* ===================================================================== *)
(** * Slicing and indexing *)
(* ===================================================================== *)

(** Where the slice [s[k:]] of a sequence of length [len] starts: a negative
    [k] counts from the end, and the result is clamped to [0 .. len]. *)
Definition slice_start (len : nat) (k : Z) : nat :=
  if k <? 0 then Z.to_nat (Z.max 0 (Z.of_nat len + k))
  else Nat.min (Z.to_nat k) len.

Fixpoint string_drop (n : nat) (s : string) : string :=
  match n, s with
  | O, _ => s
  | S n', String _ s' => string_drop n' s'
  | S _, EmptyString => EmptyString
  end.

(** [s[k:]] on a [str]. *)
Definition str_slice_from (s : string) (k : Z) : string :=
  string_drop (slice_start (String.length s) k) s.

(** The items of [l[k:]] on a [list]. *)
Definition items_slice_from (l : list string) (k : Z) : list string :=
  drop (slice_start (length l) k) l.

(* ===================================================================== *)
(** * Exceptions and the run-time state *)
(* ===================================================================== *)

Inductive PyExn :=
| IndexError (msg : string)
| AttributeError (msg : string)
| TypeError (msg : string)
| ExternalError (tag : string).

Definition Result (A : Type) : Type := PyExn + A.

(** An object with an attribute dictionary. [obj_code] is what a call of the
    object runs, absent when the object is not callable. *)
Record PyObj := mkObj {
  obj_code : option positive;
  obj_attrs : gmap string PyVal
}.

Definition empty_obj : PyObj := mkObj None ∅.

(** One call of [bot.respond]: the two positional arguments, the three
    keywords [Context.respond] always passes, and the remaining keywords. *)
Record RespondCall := mkCall {
  rc_msg : PyVal;
  rc_text : PyVal;
  rc_mode : PyVal;
  rc_redact : PyVal;
  rc_response : option Message.t;
  rc_kwargs : gmap string PyVal
}.

Section Runtime.
Context {World : Type}.

Record Runtime := mkRuntime {
  heap : gmap loc PyObj;
  next_id : positive;
  world : World;
  calls : list (PyVal * RespondCall)
}.

Definition set_heap (h : gmap loc PyObj) (rt : Runtime) : Runtime :=
  mkRuntime h (next_id rt) (world rt) (calls rt).

Definition set_next_id (n : positive) (rt : Runtime) : Runtime :=
  mkRuntime (heap rt) n (world rt) (calls rt).

(** A computation: from a state to a state and an exception or a value. *)
Definition M (A : Type) : Type := Runtime → Runtime * Result A.

Definition ret {A} (a : A) : M A := λ rt, (rt, inr a).

Definition raise {A} (e : PyExn) : M A := λ rt, (rt, inl e).

Definition bind {A B} (m : M A) (k : A → M B) : M B :=
  λ rt, match m rt with
        | (rt', inr a) => k a rt'
        | (rt', inl e) => (rt', inl e)
        end.

(** The object a reference denotes; a reference nothing was stored under
    denotes an object with no attributes. *)
Definition obj_at (rt : Runtime) (l : loc) : PyObj :=
  default empty_obj (heap rt !! l).

(** [setattr(o, name, v)] *)
Definition setattr (o : loc) (name : string) (v : PyVal) : M unit :=
  λ rt,
    let ob := obj_at rt o in
    (set_heap (<[o := mkObj (obj_code ob) (<[name := v]> (obj_attrs ob))]> (heap rt)) rt,
     inr tt).

(** [getattr(o, name, d)] *)
Definition getattr_default (o : loc) (name : string) (d : PyVal) : M PyVal :=
  λ rt, (rt, inr (default d (obj_attrs (obj_at rt o) !! name))).

(** Allocation of a new list object, such as [[]] or a slice make. *)
Definition new_list (items : list string) : M ListObj :=
  λ rt, (set_next_id (Pos.succ (next_id rt)) rt, inr (mkList (next_id rt) items)).

(** [callable(o)] *)
Definition callable (rt : Runtime) (o : loc) : bool :=
  bool_decide (is_Some (obj_code (obj_at rt o))).
End Runtime.

Arguments Runtime : clear implicits.
Arguments M : clear implicits.

#[global] Instance M_ret {World} : MRet (M World) := @ret World.
#[global] Instance M_bind {World} : MBind (M World) := λ A B k m, bind m k.

(* ===================================================================== *)
(** * Metadata decorators *)
(* ===================================================================== *)

Section Decorators.
Context {World : Type}.

Definition desc_decorator (_desc : string) (func : loc) : M World loc :=
  _ ← setattr func "_cmd_description" (VStr _desc);
  mret func.

(** Sets description on a command function. *)
Definition desc (_desc : string) : loc → M World loc :=
  desc_decorator _desc.

Definition usage_decorator (_usage : string) (optional reply : bool)
    (func : loc) : M World loc :=
  _ ← setattr func "_cmd_usage" (VStr _usage);
  _ ← setattr func "_cmd_usage_optional" (VBool optional);
  _ ← setattr func "_cmd_usage_reply" (VBool reply);
  mret func.

(** Sets argument usage help on a command function. [optional] and [reply]
    default to [False] at the call site. *)
Definition usage (_usage : string) (optional reply : bool) : loc → M World loc :=
  usage_decorator _usage optional reply.

Definition alias_decorator (aliases : list string) (func : loc) : M World loc :=
  _ ← setattr func "_cmd_aliases" (VTuple aliases);
  mret func.

(** Sets aliases on a command function. *)
Definition alias (aliases : list string) : loc → M World loc :=
  alias_decorator aliases.

(** One decorator application, and a stack of them applied innermost
    first. *)
Inductive Tag :=
| TDesc (_desc : string)
| TUsage (_usage : string) (optional reply : bool)
| TAlias (aliases : list string).

Definition apply_tag (t : Tag) : loc → M World loc :=
  match t with
  | TDesc d => desc d
  | TUsage u o r => usage u o r
  | TAlias a => alias a
  end.

Fixpoint apply_tags (ts : list Tag) (func : loc) : M World loc :=
  match ts with
  | [] => mret func
  | t :: ts' => f ← apply_tag t func; apply_tags ts' f
  end.
End Decorators.

(* ===================================================================== *)
(** * Command descriptor *)
(* ===================================================================== *)

Module Command.
Record t := mk {
  name : string;
  desc : PyVal;
  usage : PyVal;
  usage_optional : PyVal;
  usage_reply : PyVal;
  aliases : PyVal;
  module : PyVal;
  func : loc
}.

Section Init.
Context {World : Type}.

(** The default of [aliases] is the list display [[]], evaluated (a new
    list object) before [getattr] is called. [mod_] is the source's [mod], a
    word a notation takes here. *)
Definition __init__ (name : string) (mod_ : PyVal) (func : loc) : M World t :=
  d ← getattr_default func "_cmd_description" VNone;
  u ← getattr_default func "_cmd_usage" VNone;
  uo ← getattr_default func "_cmd_usage_optional" (VBool false);
  ur ← getattr_default func "_cmd_usage_reply" (VBool false);
  empty ← new_list [];
  a ← getattr_default func "_cmd_aliases" (VList empty);
  mret (mk name d u uo ur a mod_ func).
End Init.
End Command.

(* ===================================================================== *)
(** * Command invocation context *)
(* ===================================================================== *)

(** [l[i]] on a list: a negative index counts from the end. *)
Definition list_getitem (l : list string) (i : Z) : Result string :=
  let j := if i <? 0 then Z.of_nat (length l) + i else i in
  if j <? 0 then inl (IndexError "list index out of range")
  else match l !! Z.to_nat j with
       | Some x => inr x
       | None => inl (IndexError "list index out of range")
       end.

(** [d.setdefault(k, v)], for its effect on [d]. *)
Definition setdefault (k : string) (v : PyVal) (d : gmap string PyVal)
    : gmap string PyVal :=
  match d !! k with
  | Some _ => d
  | None => <[k := v]> d
  end.

(** The value a keyword parameter is bound to: the caller's, or the
    parameter's default. *)
Definition kwarg (kwargs : gmap string PyVal) (k : string) (d : PyVal) : PyVal :=
  default d (kwargs !! k).

Module Context.
(** The instance's fields. [args] is absent until [_get_args] stores it.
    A method takes the instance and returns it as the method leaves it, next
    to its result; a method that raises has left the instance as it was. *)
Record t := mk {
  bot : PyVal;
  msg : Message.t;
  segments : ListObj;
  cmd_len : Z;
  invoker : string;
  response : option Message.t;
  response_mode : PyVal;
  input : string;
  parsed_input : string;
  args : option ListObj
}.

Definition set_args (a : ListObj) (self : t) : t :=
  mk (bot self) (msg self) (segments self) (cmd_len self) (invoker self)
     (response self) (response_mode self) (input self) (parsed_input self)
     (Some a).

Definition set_response (r : Message.t) (self : t) : t :=
  mk (bot self) (msg self) (segments self) (cmd_len self) (invoker self)
     (Some r) (response_mode self) (input self) (parsed_input self)
     (args self).

Definition set_response_mode (m : PyVal) (self : t) : t :=
  mk (bot self) (msg self) (segments self) (cmd_len self) (invoker self)
     (response self) m (input self) (parsed_input self) (args self).

(** The instance's [__dict__]. *)
Definition instance_dict (self : t) : gmap string PyVal :=
  let d : gmap string PyVal :=
    list_to_map
      [("bot", bot self); ("msg", VMsg (msg self));
       ("segments", VList (segments self)); ("cmd_len", VInt (cmd_len self));
       ("invoker", VStr (invoker self));
       ("response", of_optional (response self));
       ("response_mode", response_mode self);
       ("input", VStr (input self));
       ("parsed_input", VStr (parsed_input self))] in
  match args self with
  | Some a => <["args" := VList a]> d
  | None => d
  end.

(** What the class body defines. *)
Definition methods : list string :=
  ["__init__"; "__getattr__"; "_get_args"; "respond"; "respond_multi"].

Definition class_dict : gmap string PyVal :=
  list_to_map ((λ n, (n, VMethod n)) <$> methods).

(** The positional and keyword parameters [respond] names; every other
    keyword goes to its [**kwargs]. *)
Definition respond_params : list string :=
  ["text"; "mode"; "redact"; "msg"; "reuse_response"].

(** The keywords [respond] passes to [bot.respond] by name. *)
Definition passed_keywords : list string := ["mode"; "redact"; "response"].

Section Methods.
Context {World : Type}.

(** Attributes every instance gets from [object] and from the class
    machinery ([__class__], [__dict__], [__doc__], ...). *)
Variable object_dict : gmap string PyVal.

(** [Bot.respond], of [pyrobud/core.py]: the bot, the call, the state
    of the world before; the state after and what it returns or
    raises. *)
Variable bot_respond :
  PyVal → RespondCall → World → World * Result Message.t.

Definition __init__ (bot : PyVal) (msg : Message.t) (segments : ListObj)
    (cmd_len : Z) : M World t :=
  match list_getitem (list_items segments) 0 with
  | inl e => raise e
  | inr invoker =>
      mret (mk bot msg segments cmd_len invoker None VNone
               (str_slice_from (Message.text msg) cmd_len)
               (str_slice_from (Message.raw_text msg) cmd_len)
               None)
  end.

(** Argument segments *)
Definition _get_args (self : t) : M World (t * ListObj) :=
  a ← new_list (items_slice_from (list_items (segments self)) 1);
  mret (set_args a self, a).

(** Lazily resolve expensive fields *)
Definition __getattr__ (self : t) (name : string) : M World (t * PyVal) :=
  if String.eqb name "args" then
    '(self', a) ← _get_args self;
    mret (self', VList a)
  else
    raise (AttributeError
             ("'Context' object has no attribute '" +:+ name +:+ "'")).

(** The attribute reference [self.name]: the instance dictionary, then
    the class, then [object]; [__getattr__] only when all three miss. *)
Definition getattr (self : t) (name : string) : M World (t * PyVal) :=
  match instance_dict self !! name with
  | Some v => mret (self, v)
  | None =>
      match class_dict !! name with
      | Some v => mret (self, v)
      | None =>
          match object_dict !! name with
          | Some v => mret (self, v)
          | None => __getattr__ self name
          end
      end
  end.

(** A handler that reads [self.name] [n] times in a row. *)
Fixpoint read_many (n : nat) (name : string) (self : t)
    : M World (t * list PyVal) :=
  match n with
  | O => mret (self, [])
  | S n' =>
      '(self1, v) ← getattr self name;
      '(self2, vs) ← read_many n' name self1;
      mret (self2, v :: vs)
  end.

(** The call [self.bot.respond(...)]: logged, then left to the
    primitive. *)
Definition call_bot_respond (bot : PyVal) (c : RespondCall)
    : M World Message.t :=
  λ rt,
    let '(w, res) := bot_respond bot c (world rt) in
    (mkRuntime (heap rt) (next_id rt) w (calls rt ++ [(bot, c)]), res).

(** The arguments [respond] evaluates for [bot.respond]. *)
Definition respond_call (self : t)
    (text mode redact msg reuse_response : PyVal)
    (kwargs : gmap string PyVal) : RespondCall :=
  mkCall (if truthy msg then msg else VMsg (Context.msg self))
         text mode redact
         (if truthy reuse_response && py_eq mode (response_mode self)
          then response self else None)
         kwargs.

(** Convenience alias for Bot.respond(). A keyword of [**kwargs] that
    repeats one passed by name makes the call itself raise. *)
Definition respond (self : t)
    (text mode redact msg reuse_response : PyVal)
    (kwargs : gmap string PyVal) : M World (t * Message.t) :=
  let c := respond_call self text mode redact msg reuse_response kwargs in
  match List.find (λ k, bool_decide (is_Some (kwargs !! k))) passed_keywords with
  | Some k =>
      raise (TypeError
               ("got multiple values for keyword argument '" +:+ k +:+ "'"))
  | None =>
      r ← call_bot_respond (bot self) c;
      let self' := set_response_mode mode (set_response r self) in
      mret (self', r)
  end.

(** The call of [self.respond] on [args] and [kwargs] unpacked:
    parameters are bound from
    the positional arguments, then from the keywords, then from their
    defaults. *)
Definition call_respond (self : t) (args : list PyVal)
    (kwargs : gmap string PyVal) : M World (t * Message.t) :=
  let bound text :=
    respond self text (kwarg kwargs "mode" VNone)
            (kwarg kwargs "redact" VNone) (kwarg kwargs "msg" VNone)
            (kwarg kwargs "reuse_response" (VBool false))
            (foldr delete kwargs respond_params) in
  if bool_decide (is_Some (kwargs !! "self")) then
    raise (TypeError "got multiple values for argument 'self'")
  else
    match args with
    | [] => bound (kwarg kwargs "text" VNone)
    | [text] =>
        if bool_decide (is_Some (kwargs !! "text")) then
          raise (TypeError "got multiple values for argument 'text'")
        else bound text
    | _ =>
        raise (TypeError "takes from 1 to 2 positional arguments")
    end.

Definition respond_multi (self : t) (args : list PyVal)
    (kwargs : gmap string PyVal) : M World (t * Message.t) :=
  (* First response is the same *)
  let kwargs :=
    if truthy (of_optional (response self)) then
      (* After that, force a reply to the previous response *)
      let kwargs := setdefault "mode" (VStr "reply") kwargs in
      let kwargs := setdefault "msg" (of_optional (response self)) kwargs in
      setdefault "reuse_response" (VBool false) kwargs
    else kwargs in
  call_respond self args kwargs.
End Methods.
End Context.

(* ===================================================================== *)
(** * Notions the statements below are written with *)
(* ===================================================================== *)

(** The attribute names the decorators write and [Command.__init__] reads. *)
Definition tag_keys : list string :=
  ["_cmd_description"; "_cmd_usage"; "_cmd_usage_optional";
   "_cmd_usage_reply"; "_cmd_aliases"].

(** The argument of the last [desc] / [usage] / [alias] of a stack. *)
Fixpoint last_desc (ts : list Tag) : option string :=
  match ts with
  | [] => None
  | t :: ts' =>
      match last_desc ts' with
      | Some d => Some d
      | None => match t with TDesc d => Some d | _ => None end
      end
  end.

Fixpoint last_usage (ts : list Tag) : option (string * bool * bool) :=
  match ts with
  | [] => None
  | t :: ts' =>
      match last_usage ts' with
      | Some u => Some u
      | None => match t with TUsage u o r => Some (u, o, r) | _ => None end
      end
  end.

Fixpoint last_alias (ts : list Tag) : option (list string) :=
  match ts with
  | [] => None
  | t :: ts' =>
      match last_alias ts' with
      | Some a => Some a
      | None => match t with TAlias a => Some a | _ => None end
      end
  end.

(** The attribute dictionary one decorator, and a stack of them, leaves. *)
Definition tag_attrs (t : Tag) (d : gmap string PyVal) : gmap string PyVal :=
  match t with
  | TDesc s => <["_cmd_description" := VStr s]> d
  | TUsage u o r =>
      <["_cmd_usage_reply" := VBool r]>
        (<["_cmd_usage_optional" := VBool o]> (<["_cmd_usage" := VStr u]> d))
  | TAlias a => <["_cmd_aliases" := VTuple a]> d
  end.

Definition tags_attrs (ts : list Tag) (d : gmap string PyVal)
    : gmap string PyVal :=
  foldl (λ d t, tag_attrs t d) d ts.

Section Observations.
Context {World : Type}.

(** Between [rt] and [rt'] nothing changed but the attribute dictionary of
    [f], which now is [d]. *)
Definition retagged (f : loc) (d : gmap string PyVal)
    (rt rt' : Runtime World) : Prop :=
  obj_at rt' f = mkObj (obj_code (obj_at rt f)) d
  ∧ (∀ g, g ≠ f → obj_at rt' g = obj_at rt g)
  ∧ next_id rt' = next_id rt
  ∧ world rt' = world rt
  ∧ calls rt' = calls rt.

(** No decorator was applied to [f]. *)
Definition untagged (rt : Runtime World) (f : loc) : Prop :=
  Forall (λ k, obj_attrs (obj_at rt f) !! k = None) tag_keys.

(** [name] is found without [__getattr__]. *)
Definition defined (object_dict : gmap string PyVal) (self : Context.t)
    (name : string) : Prop :=
  is_Some (Context.instance_dict self !! name)
  ∨ is_Some (Context.class_dict !! name)
  ∨ is_Some (object_dict !! name).

(** [kwargs] repeats none of the keywords [respond] passes by name. *)
Definition no_repeated_keyword (kwargs : gmap string PyVal) : Prop :=
  Forall (λ k, kwargs !! k = None) Context.passed_keywords.

(** [self] with [response] and [response_mode] replaced, nothing else. *)
Definition responded (self : Context.t) (r : Message.t) (mode : PyVal)
    : Context.t :=
  Context.mk (Context.bot self) (Context.msg self) (Context.segments self)
             (Context.cmd_len self) (Context.invoker self) (Some r) mode
             (Context.input self) (Context.parsed_input self)
             (Context.args self).

(** The state after one more call of the primitive. *)
Definition after_call (rt : Runtime World) (w : World) (bot : PyVal)
    (c : RespondCall) : Runtime World :=
  mkRuntime (heap rt) (next_id rt) w (calls rt ++ [(bot, c)]).
End Observations.

#[global] Instance untagged_dec {World} (rt : Runtime World) f :
  Decision (untagged rt f).
Proof. unfold untagged. apply _. Defined.

#[global] Instance no_repeated_keyword_dec kwargs :
  Decision (no_repeated_keyword kwargs).
Proof. unfold no_repeated_keyword. apply _. Defined.

(** The defaults [respond_multi] supplies once there is a response. *)
Definition multi_defaults (r : Message.t) : gmap string PyVal :=
  {[ "mode" := VStr "reply"; "msg" := VMsg r; "reuse_response" := VBool false ]}.

(** The attribute [k] of the object [f], when it is set. *)
Definition attr {World} (rt : Runtime World) (f : loc) (k : string)
    : option PyVal :=
  obj_attrs (obj_at rt f) !! k.

(** The call of [respond] on [args] and [kwargs] binds its [text] parameter
    to [text], and [kwargs] names no [self]. *)
Definition binds_text (args : list PyVal) (kwargs : gmap string PyVal)
    (text : PyVal) : Prop :=
  kwargs !! "self" = None
  ∧ ((args = [] ∧ text = kwarg kwargs "text" VNone)
     ∨ (args = [text] ∧ kwargs !! "text" = None)).

(* ===================================================================== *)
(** * Concrete inputs *)
(* ===================================================================== *)

(** A world that counts the messages sent, an empty heap. *)
Definition sample_rt : Runtime nat := mkRuntime ∅ 1%positive 0%nat [].

(** A primitive that edits the response it is given, and otherwise sends a
    new message numbered by the count. *)
Definition sample_respond (bot : PyVal) (c : RespondCall) (w : nat)
    : nat * Result Message.t :=
  match rc_response c with
  | Some m => (w, inr m)
  | None => (S w, inr (Message.mk (Pos.of_nat (S w)) "sent" "sent"))
  end.

Definition sample_bot : PyVal := VRef 1%positive.

Definition sample_msg : Message.t :=
  Message.mk 7%positive "/echo **hi**" "/echo hi".

Definition sample_segments : ListObj := mkList 100%positive ["echo"; "hi"].

Definition sample_ctx : Context.t :=
  Context.mk sample_bot sample_msg sample_segments 6 "echo" None VNone
             "**hi**" "hi" None.

(** The same [Context] after a first response sent with mode "reply". *)
Definition sample_response : Message.t := Message.mk 1%positive "sent" "sent".

Definition sample_ctx_responded : Context.t :=
  Context.mk sample_bot sample_msg sample_segments 6 "echo"
             (Some sample_response) (VStr "reply") "**hi**" "hi" None.

(** A handler function, not yet decorated, and an object that cannot be
    called. *)
Definition sample_func : loc := 2%positive.

Definition sample_non_callable : loc := 3%positive.

Definition sample_heap_rt : Runtime nat :=
  mkRuntime (<[sample_func := mkObj (Some 1%positive) ∅]>
               (<[sample_non_callable := mkObj None ∅]> ∅))
            1%positive 0%nat [].

(* ===================================================================== *)
(** * Notions for the further properties *)
(* ===================================================================== *)

Section FurtherObservations.
Context {World : Type}.

(** [rt] where the attribute dictionary of [f] is [d]. *)
Definition with_attrs (f : loc) (d : gmap string PyVal) (rt : Runtime World)
    : Runtime World :=
  set_heap (<[f := mkObj (obj_code (obj_at rt f)) d]> (heap rt)) rt.

(** Two instances that agree on every field but [args]. *)
Definition same_but_args (self self' : Context.t) : Prop :=
  Context.bot self' = Context.bot self
  ∧ Context.msg self' = Context.msg self
  ∧ Context.segments self' = Context.segments self
  ∧ Context.cmd_len self' = Context.cmd_len self
  ∧ Context.invoker self' = Context.invoker self
  ∧ Context.response self' = Context.response self
  ∧ Context.response_mode self' = Context.response_mode self
  ∧ Context.input self' = Context.input self
  ∧ Context.parsed_input self' = Context.parsed_input self.

(** The calls of the primitive that a run of [respond_multi(text)], once per
    text and with no keyword, makes when the calls return [rs]: the first
    one as the instance stands ([prev] is its stored response), each later
    one a reply to the result before it. *)
Fixpoint reply_chain (bot : PyVal) (msg0 : Message.t) (prev : option Message.t)
    (texts : list PyVal) (rs : list Message.t) : list (PyVal * RespondCall) :=
  match texts, rs with
  | text :: texts', r :: rs' =>
      (bot,
       mkCall (VMsg (default msg0 prev)) text
              (match prev with Some _ => VStr "reply" | None => VNone end)
              VNone None ∅)
      :: reply_chain bot msg0 (Some r) texts' rs'
  | _, _ => []
  end.

Variable bot_respond : PyVal → RespondCall → World → World * Result Message.t.

(** A handler that calls [self.respond_multi(text)] for each text in turn,
    and stops at the first call that raises. *)
Fixpoint respond_multi_each (texts : list PyVal) (self : Context.t)
    : M World (Context.t * list Message.t) :=
  match texts with
  | [] => mret (self, [])
  | text :: texts' =>
      '(self1, r) ← Context.respond_multi bot_respond self [text] ∅;
      '(self2, rs) ← respond_multi_each texts' self1;
      mret (self2, r :: rs)
  end.
End FurtherObservations.

(** A second message, and the state and the instance after
    [respond_multi("A")] and [respond_multi("B")] on the sample. *)
Definition sample_response2 : Message.t := Message.mk 2%positive "sent" "sent".

Definition sample_call_A : RespondCall :=
  mkCall (VMsg sample_msg) (VStr "A") VNone VNone None ∅.

Definition sample_call_B : RespondCall :=
  mkCall (VMsg sample_response) (VStr "B") (VStr "reply") VNone None ∅.

Definition sample_rt_after_two : Runtime nat :=
  mkRuntime ∅ 1%positive 2%nat
            [(sample_bot, sample_call_A); (sample_bot, sample_call_B)].

Definition sample_ctx_after_two : Context.t :=
  Context.mk sample_bot sample_msg sample_segments 6 "echo"
             (Some sample_response2) (VStr "reply") "**hi**" "hi" None.

(** The keywords of a call that passes [response] through [**kwargs]. *)
Definition sample_repeated : gmap string PyVal := {[ "response" := VNone ]}.

(* ===================================================================== *)
(** * Running computations *)
(* ===================================================================== *)

Ltac run :=
  unfold mbind, M_bind, bind, mret, M_ret, ret, raise in *; simpl in *.

Section DecoratorFacts.
Context {World : Type}.
Implicit Types (rt : Runtime World) (f g : loc) (d : gmap string PyVal).

Lemma obj_eta (o : PyObj) : mkObj (obj_code o) (obj_attrs o) = o.
Proof. by destruct o. Qed.

Lemma retagged_refl f rt : retagged f (obj_attrs (obj_at rt f)) rt rt.
Proof. unfold retagged. by rewrite obj_eta. Qed.

Lemma retagged_trans f d1 d2 rt1 rt2 rt3 :
  retagged f d1 rt1 rt2 → retagged f d2 rt2 rt3 → retagged f d2 rt1 rt3.
Proof.
  intros (Hf1 & Hg1 & Hn1 & Hw1 & Hc1) (Hf2 & Hg2 & Hn2 & Hw2 & Hc2).
  unfold retagged. rewrite Hf2, Hf1. simpl.
  repeat split; try congruence.
  intros g Hg. rewrite Hg2, Hg1; done.
Qed.

Lemma setattr_retagged f k v rt :
  ∃ rt', setattr f k v rt = (rt', inr tt)
         ∧ retagged f (<[k := v]> (obj_attrs (obj_at rt f))) rt rt'.
Proof.
  eexists. split; [reflexivity |].
  unfold retagged, obj_at, set_heap; simpl.
  rewrite lookup_insert_eq. repeat split; try done.
  intros g Hg. by rewrite lookup_insert_ne.
Qed.

#[local] Opaque setattr.

Lemma retagged_attrs f d rt rt' :
  retagged f d rt rt' → obj_attrs (obj_at rt' f) = d.
Proof. intros (-> & _). done. Qed.

Lemma retagged_code f d rt rt' :
  retagged f d rt rt' → obj_code (obj_at rt' f) = obj_code (obj_at rt f).
Proof. intros (-> & _). done. Qed.

Lemma apply_tag_retagged t f rt :
  ∃ rt', apply_tag t f rt = (rt', inr f)
         ∧ retagged f (tag_attrs t (obj_attrs (obj_at rt f))) rt rt'.
Proof.
  destruct t as [s | u o r | a]; simpl;
    unfold desc, desc_decorator, usage, usage_decorator, alias, alias_decorator;
    run.
  - destruct (setattr_retagged f "_cmd_description" (VStr s) rt)
      as (rt1 & -> & H1). eauto.
  - destruct (setattr_retagged f "_cmd_usage" (VStr u) rt)
      as (rt1 & -> & H1).
    destruct (setattr_retagged f "_cmd_usage_optional" (VBool o) rt1)
      as (rt2 & -> & H2).
    destruct (setattr_retagged f "_cmd_usage_reply" (VBool r) rt2)
      as (rt3 & -> & H3).
    eexists; split; [reflexivity |].
    rewrite (retagged_attrs _ _ _ _ H2), (retagged_attrs _ _ _ _ H1) in H3.
    rewrite (retagged_attrs _ _ _ _ H1) in H2.
    eauto using retagged_trans.
  - destruct (setattr_retagged f "_cmd_aliases" (VTuple a) rt)
      as (rt1 & -> & H1). eauto.
Qed.

Lemma apply_tags_retagged ts f rt :
  ∃ rt', apply_tags ts f rt = (rt', inr f)
         ∧ retagged f (tags_attrs ts (obj_attrs (obj_at rt f))) rt rt'.
Proof.
  revert rt. induction ts as [| t ts IH]; intros rt; simpl.
  - exists rt. split; [done | apply retagged_refl].
  - run. destruct (apply_tag_retagged t f rt) as (rt1 & -> & H1).
    destruct (IH rt1) as (rt2 & -> & H2).
    exists rt2. split; [done |].
    rewrite (retagged_attrs _ _ _ _ H1) in H2.
    eauto using retagged_trans.
Qed.

#[local] Transparent setattr.
End DecoratorFacts.

Section TagAttributes.
Implicit Types (ts : list Tag) (d : gmap string PyVal).

Lemma tags_attrs_cons t ts d :
  tags_attrs (t :: ts) d = tags_attrs ts (tag_attrs t d).
Proof. reflexivity. Qed.

Lemma tags_attrs_other ts d k :
  k ∉ tag_keys → tags_attrs ts d !! k = d !! k.
Proof.
  intros Hk. revert d. induction ts as [| t ts IH]; intros d; [done |].
  rewrite tags_attrs_cons, IH.
  assert (Hne : ∀ k', k' ∈ tag_keys → k' ≠ k) by (intros k' Hk' ->; done).
  destruct t; simpl; rewrite ?lookup_insert_ne; try done;
    apply Hne; unfold tag_keys; set_solver.
Qed.

Lemma tags_attrs_description ts d :
  tags_attrs ts d !! "_cmd_description"
  = match last_desc ts with
    | Some s => Some (VStr s)
    | None => d !! "_cmd_description"
    end.
Proof.
  revert d. induction ts as [| t ts IH]; intros d; [done |].
  rewrite tags_attrs_cons, IH. simpl.
  destruct (last_desc ts); [done |].
  destruct t; simpl; by simplify_map_eq.
Qed.

Lemma tags_attrs_usage ts d :
  tags_attrs ts d !! "_cmd_usage"
  = match last_usage ts with
    | Some (u, _, _) => Some (VStr u)
    | None => d !! "_cmd_usage"
    end.
Proof.
  revert d. induction ts as [| t ts IH]; intros d; [done |].
  rewrite tags_attrs_cons, IH. simpl.
  destruct (last_usage ts) as [[[u o] r] |]; [done |].
  destruct t; simpl; by simplify_map_eq.
Qed.

Lemma tags_attrs_usage_optional ts d :
  tags_attrs ts d !! "_cmd_usage_optional"
  = match last_usage ts with
    | Some (_, o, _) => Some (VBool o)
    | None => d !! "_cmd_usage_optional"
    end.
Proof.
  revert d. induction ts as [| t ts IH]; intros d; [done |].
  rewrite tags_attrs_cons, IH. simpl.
  destruct (last_usage ts) as [[[u o] r] |]; [done |].
  destruct t; simpl; by simplify_map_eq.
Qed.

Lemma tags_attrs_usage_reply ts d :
  tags_attrs ts d !! "_cmd_usage_reply"
  = match last_usage ts with
    | Some (_, _, r) => Some (VBool r)
    | None => d !! "_cmd_usage_reply"
    end.
Proof.
  revert d. induction ts as [| t ts IH]; intros d; [done |].
  rewrite tags_attrs_cons, IH. simpl.
  destruct (last_usage ts) as [[[u o] r] |]; [done |].
  destruct t; simpl; by simplify_map_eq.
Qed.

Lemma tags_attrs_aliases ts d :
  tags_attrs ts d !! "_cmd_aliases"
  = match last_alias ts with
    | Some a => Some (VTuple a)
    | None => d !! "_cmd_aliases"
    end.
Proof.
  revert d. induction ts as [| t ts IH]; intros d; [done |].
  rewrite tags_attrs_cons, IH. simpl.
  destruct (last_alias ts); [done |].
  destruct t; simpl; by simplify_map_eq.
Qed.
End TagAttributes.

(* ===================================================================== *)
(** * Metadata decorators: the decorated function is the function *)
(* ===================================================================== *)

Section TagTheorems.
Context {World : Type}.
Implicit Types (rt : Runtime World) (f g : loc).

Lemma getattr_default_attr f k dflt rt :
  getattr_default f k dflt rt = (rt, inr (default dflt (attr rt f k))).
Proof. reflexivity. Qed.

Lemma callable_code rt rt' f :
  obj_code (obj_at rt' f) = obj_code (obj_at rt f) →
  callable rt' f = callable rt f.
Proof. unfold callable. by intros ->. Qed.

(** C8. Whatever stack of [desc], [usage] and [alias] decorators is applied
    to a function [f], in whatever order, no application raises and the value
    returned is the reference [f] itself, not a wrapper. The object behind it
    keeps its code, so a call runs what it ran before; no other object, and
    nothing else of the state, changes. Each decorator's value is recorded
    under its attribute, where the last application of a kind wins, and
    attributes no decorator writes keep their value. *)
Theorem C8_tags_return_the_same_function (ts : list Tag) f rt :
  ∃ rt',
    apply_tags ts f rt = (rt', inr f)
    ∧ obj_code (obj_at rt' f) = obj_code (obj_at rt f)
    ∧ callable rt' f = callable rt f
    ∧ (∀ g, g ≠ f → obj_at rt' g = obj_at rt g)
    ∧ next_id rt' = next_id rt
    ∧ world rt' = world rt
    ∧ calls rt' = calls rt
    ∧ (∀ k, k ∉ tag_keys → attr rt' f k = attr rt f k)
    ∧ attr rt' f "_cmd_description"
      = match last_desc ts with
        | Some s => Some (VStr s)
        | None => attr rt f "_cmd_description"
        end
    ∧ attr rt' f "_cmd_usage"
      = match last_usage ts with
        | Some (u, _, _) => Some (VStr u)
        | None => attr rt f "_cmd_usage"
        end
    ∧ attr rt' f "_cmd_usage_optional"
      = match last_usage ts with
        | Some (_, o, _) => Some (VBool o)
        | None => attr rt f "_cmd_usage_optional"
        end
    ∧ attr rt' f "_cmd_usage_reply"
      = match last_usage ts with
        | Some (_, _, r) => Some (VBool r)
        | None => attr rt f "_cmd_usage_reply"
        end
    ∧ attr rt' f "_cmd_aliases"
      = match last_alias ts with
        | Some a => Some (VTuple a)
        | None => attr rt f "_cmd_aliases"
        end.
Proof.
  destruct (apply_tags_retagged ts f rt) as (rt' & Hrun & Hre).
  exists rt'. split; [exact Hrun |].
  pose proof (retagged_code _ _ _ _ Hre) as Hcode.
  pose proof (retagged_attrs _ _ _ _ Hre) as Hattrs.
  destruct Hre as (_ & Hother & Hn & Hw & Hc).
  split; [exact Hcode |].
  split; [by apply callable_code |].
  repeat (split; [assumption |]).
  unfold attr. rewrite Hattrs.
  split; [intros k Hk; by apply tags_attrs_other |].
  split; [apply tags_attrs_description |].
  split; [apply tags_attrs_usage |].
  split; [apply tags_attrs_usage_optional |].
  split; [apply tags_attrs_usage_reply | apply tags_attrs_aliases].
Qed.
End TagTheorems.

(* ===================================================================== *)
(** * Command descriptor *)
(* ===================================================================== *)

Section CommandTheorems.
Context {World : Type}.
Implicit Types (rt : Runtime World) (f : loc).

Lemma Command_init_run name mod_ f rt :
  Command.__init__ name mod_ f rt
  = (set_next_id (Pos.succ (next_id rt)) rt,
     inr (Command.mk name
            (default VNone (attr rt f "_cmd_description"))
            (default VNone (attr rt f "_cmd_usage"))
            (default (VBool false) (attr rt f "_cmd_usage_optional"))
            (default (VBool false) (attr rt f "_cmd_usage_reply"))
            (default (VList (mkList (next_id rt) [])) (attr rt f "_cmd_aliases"))
            mod_ f)).
Proof. reflexivity. Qed.

Lemma untagged_attr rt f k : untagged rt f → k ∈ tag_keys → attr rt f k = None.
Proof.
  unfold untagged, attr. rewrite Forall_forall. intros H Hk. by apply H.
Qed.

(** C9. [Command(name, module, f)] never raises, and each metadata field is
    the attribute the matching decorator wrote on [f], or its default when the
    attribute is not set: [None], [None], [False], [False] and a new empty
    list. On a function no decorator was applied to, all five are the
    defaults. *)
Theorem C9_command_fields_default (name : string) (mod_ : PyVal) f rt :
  ∃ c rt',
    Command.__init__ name mod_ f rt = (rt', inr c)
    ∧ Command.desc c = default VNone (attr rt f "_cmd_description")
    ∧ Command.usage c = default VNone (attr rt f "_cmd_usage")
    ∧ Command.usage_optional c
      = default (VBool false) (attr rt f "_cmd_usage_optional")
    ∧ Command.usage_reply c
      = default (VBool false) (attr rt f "_cmd_usage_reply")
    ∧ Command.aliases c
      = default (VList (mkList (next_id rt) [])) (attr rt f "_cmd_aliases")
    ∧ (untagged rt f →
       Command.desc c = VNone
       ∧ Command.usage c = VNone
       ∧ Command.usage_optional c = VBool false
       ∧ Command.usage_reply c = VBool false
       ∧ ∃ o, Command.aliases c = VList o ∧ list_items o = []).
Proof.
  eexists _, _. split; [apply Command_init_run |]. simpl.
  repeat (split; [reflexivity |]).
  intros Hun.
  rewrite !(untagged_attr rt f) by (done || (unfold tag_keys; set_solver)).
  simpl. repeat (split; [reflexivity |]). by eexists.
Qed.

(** C4, as the code has it. [Command(name, module, func)] never fails,
    whether [func] can be called or not: nothing checks that it can. It
    returns a descriptor of that very [func], [name] and [module]; it changes
    no object, calls nothing and leaves the world alone. The one trace it
    leaves is the allocation of the list its [aliases] default evaluates. *)
Theorem C4_command_init_never_fails (name : string) (mod_ : PyVal) f rt :
  ∃ c rt',
    Command.__init__ name mod_ f rt = (rt', inr c)
    ∧ Command.name c = name
    ∧ Command.module c = mod_
    ∧ Command.func c = f
    ∧ heap rt' = heap rt
    ∧ world rt' = world rt
    ∧ calls rt' = calls rt
    ∧ next_id rt' = Pos.succ (next_id rt).
Proof.
  eexists _, _. split; [apply Command_init_run |]. by simpl.
Qed.
End CommandTheorems.

(** C4, as the specification words it, does not hold: an object that cannot
    be called is accepted, and no error of any kind comes back. *)
Lemma C4_non_callable_is_accepted :
  callable sample_heap_rt sample_non_callable = false
  ∧ ∃ c rt',
      Command.__init__ "ping" VNone sample_non_callable sample_heap_rt
      = (rt', inr c)
      ∧ Command.func c = sample_non_callable.
Proof.
  split; [reflexivity |].
  eexists _, _. split; [apply Command_init_run | reflexivity].
Qed.

(** C9 on a handler no decorator was applied to. *)
Lemma C9_undecorated_handler :
  untagged sample_heap_rt sample_func
  ∧ ∃ c rt',
      Command.__init__ "ping" VNone sample_func sample_heap_rt = (rt', inr c)
      ∧ Command.desc c = VNone
      ∧ Command.usage c = VNone
      ∧ Command.usage_optional c = VBool false
      ∧ Command.usage_reply c = VBool false
      ∧ ∃ o, Command.aliases c = VList o ∧ list_items o = [].
Proof.
  assert (Hun : untagged sample_heap_rt sample_func)
    by (unfold untagged, tag_keys; repeat constructor).
  split; [exact Hun |].
  destruct (C9_command_fields_default "ping" VNone sample_func sample_heap_rt)
    as (c & rt' & Hrun & _ & _ & _ & _ & _ & Hdef).
  exists c, rt'. split; [exact Hrun |]. exact (Hdef Hun).
Defined.

(* ===================================================================== *)
(** * Slicing *)
(* ===================================================================== *)

Lemma string_drop_length n s :
  String.length (string_drop n s) = (String.length s - n)%nat.
Proof.
  revert s. induction n as [| n IH]; intros s; simpl.
  - lia.
  - destruct s as [| c s]; simpl; [reflexivity | apply IH].
Qed.

Lemma substring_string_drop n s :
  String.substring 0 n s +:+ string_drop n s = s.
Proof.
  revert s. induction n as [| n IH]; intros s.
  - by destruct s.
  - destruct s as [| c s]; simpl; [reflexivity |].
    change (String c (String.substring 0 n s +:+ string_drop n s) = String c s).
    by rewrite IH.
Qed.

Lemma slice_start_in_range len k :
  0 ≤ k ≤ Z.of_nat len → slice_start len k = Z.to_nat k.
Proof.
  intros Hk. unfold slice_start.
  destruct (Z.ltb_spec k 0); lia.
Qed.

(** Within [0 .. len(s)], [s[k:]] is what follows the first [k]
    characters. *)
Lemma str_slice_from_in_range s k :
  0 ≤ k ≤ Z.of_nat (String.length s) →
  s = String.substring 0 (Z.to_nat k) s +:+ str_slice_from s k
  ∧ Z.of_nat (String.length (str_slice_from s k))
    = Z.of_nat (String.length s) - k.
Proof.
  intros Hk. unfold str_slice_from.
  rewrite (slice_start_in_range _ _ Hk), substring_string_drop.
  split; [reflexivity |]. rewrite string_drop_length. lia.
Qed.

(* ===================================================================== *)
(** * Context: construction and attribute access *)
(* ===================================================================== *)

Section ContextTheorems.
Context {World : Type}.
Variable object_dict : gmap string PyVal.
Implicit Types (rt : Runtime World) (self : Context.t) (name : string).

Lemma Context_init_nonempty (bot : PyVal) (msg : Message.t) sid s0 rest
    (cmd_len : Z) rt :
  Context.__init__ bot msg (mkList sid (s0 :: rest)) cmd_len rt
  = (rt, inr (Context.mk bot msg (mkList sid (s0 :: rest)) cmd_len s0
                None VNone
                (str_slice_from (Message.text msg) cmd_len)
                (str_slice_from (Message.raw_text msg) cmd_len)
                None)).
Proof. reflexivity. Qed.

(** C3. Constructing a [Context] from an empty [segments] raises, at
    [segments[0]], the error Python has for an index out of range, and so
    makes no [Context]; from [segments] with a first item it succeeds, keeps
    the state as it was and sets [invoker] to that item. Every [Context] that
    construction returns has a non-empty [segments]. *)
Theorem C3_context_needs_segments (bot : PyVal) (msg : Message.t)
    (segments : ListObj) (cmd_len : Z) rt :
  (list_items segments = [] →
   Context.__init__ bot msg segments cmd_len rt
   = (rt, inl (IndexError "list index out of range")))
  ∧ (∀ s0 rest, list_items segments = s0 :: rest →
     ∃ ctx, Context.__init__ bot msg segments cmd_len rt = (rt, inr ctx)
            ∧ Context.invoker ctx = s0
            ∧ Context.segments ctx = segments)
  ∧ (∀ rt' ctx, Context.__init__ bot msg segments cmd_len rt = (rt', inr ctx) →
     list_items (Context.segments ctx) ≠ []).
Proof.
  destruct segments as [sid items]. simpl.
  split; [| split].
  - intros ->. reflexivity.
  - intros s0 rest ->. eexists. split; [apply Context_init_nonempty |]. done.
  - intros rt' ctx. destruct items as [| s0 rest].
    + discriminate.
    + rewrite Context_init_nonempty. intros [= _ <-]. done.
Qed.

(** C6. Construction itself stores [input] and [parsed_input], the slices
    [msg.text[cmd_len:]] and [msg.raw_text[cmd_len:]]: both are in the
    instance dictionary of the [Context] returned, while [args] is not. For
    [cmd_len] within the text, the slice is the text without its first
    [cmd_len] characters. *)
Theorem C6_input_is_sliced_at_construction (bot : PyVal) (msg : Message.t)
    sid s0 rest (cmd_len : Z) rt :
  ∃ ctx,
    Context.__init__ bot msg (mkList sid (s0 :: rest)) cmd_len rt = (rt, inr ctx)
    ∧ Context.input ctx = str_slice_from (Message.text msg) cmd_len
    ∧ Context.parsed_input ctx = str_slice_from (Message.raw_text msg) cmd_len
    ∧ Context.instance_dict ctx !! "input" = Some (VStr (Context.input ctx))
    ∧ Context.instance_dict ctx !! "parsed_input"
      = Some (VStr (Context.parsed_input ctx))
    ∧ Context.instance_dict ctx !! "args" = None
    ∧ (0 ≤ cmd_len ≤ Z.of_nat (String.length (Message.text msg)) →
       Message.text msg
       = String.substring 0 (Z.to_nat cmd_len) (Message.text msg)
         +:+ Context.input ctx)
    ∧ (0 ≤ cmd_len ≤ Z.of_nat (String.length (Message.raw_text msg)) →
       Message.raw_text msg
       = String.substring 0 (Z.to_nat cmd_len) (Message.raw_text msg)
         +:+ Context.parsed_input ctx).
Proof.
  eexists. split; [apply Context_init_nonempty |]. simpl.
  repeat (split; [reflexivity |]).
  split; intros Hk; by apply str_slice_from_in_range.
Qed.

Lemma instance_dict_args self :
  Context.instance_dict self !! "args" = VList <$> Context.args self.
Proof.
  unfold Context.instance_dict. destruct (Context.args self); simpl.
  - by rewrite lookup_insert_eq.
  - reflexivity.
Qed.

Lemma getattr_args_cached self a rt :
  Context.args self = Some a →
  Context.getattr object_dict self "args" rt = (rt, inr (self, VList a)).
Proof.
  intros Ha. unfold Context.getattr. rewrite instance_dict_args, Ha. reflexivity.
Qed.

Lemma getattr_args_first self rt :
  Context.args self = None →
  object_dict !! "args" = None →
  let a := mkList (next_id rt)
                  (items_slice_from (list_items (Context.segments self)) 1) in
  Context.getattr object_dict self "args" rt
  = (set_next_id (Pos.succ (next_id rt)) rt,
     inr (Context.set_args a self, VList a)).
Proof.
  intros Ha Hobj. unfold Context.getattr.
  rewrite instance_dict_args, Ha, Hobj. reflexivity.
Qed.

Lemma read_many_cached n self a rt :
  Context.args self = Some a →
  Context.read_many object_dict n "args" self rt
  = (rt, inr (self, replicate n (VList a))).
Proof.
  intros Ha. induction n as [| n IH]; simpl; [reflexivity |].
  run. rewrite (getattr_args_cached _ _ _ Ha). by rewrite IH.
Qed.

(** C5. On a [Context] constructed from [segments = [s0, s1, ..., sn]],
    nothing is computed for [args] at construction. The first read of
    [ctx.args] allocates one list, [[s1, ..., sn]], and stores it in the
    instance; that read and every later one return this one object, and the
    later ones allocate nothing and change nothing. *)
Theorem C5_args_is_computed_once (bot : PyVal) (msg : Message.t)
    sid s0 rest (cmd_len : Z) (n : nat) rt :
  object_dict !! "args" = None →
  ∃ ctx,
    Context.__init__ bot msg (mkList sid (s0 :: rest)) cmd_len rt = (rt, inr ctx)
    ∧ Context.args ctx = None
    ∧ let a := mkList (next_id rt) rest in
      let ctx' := Context.set_args a ctx in
      let rt' := set_next_id (Pos.succ (next_id rt)) rt in
      Context.read_many object_dict (S n) "args" ctx rt
      = (rt', inr (ctx', replicate (S n) (VList a)))
      ∧ ∀ m rt2,
          Context.read_many object_dict m "args" ctx' rt2
          = (rt2, inr (ctx', replicate m (VList a))).
Proof.
  intros Hobj. eexists. split; [apply Context_init_nonempty |].
  split; [reflexivity |]. simpl. split.
  - run. rewrite getattr_args_first by done. simpl.
    rewrite (read_many_cached n _ (mkList (next_id rt) rest)) by reflexivity.
    reflexivity.
  - intros m rt2. by apply read_many_cached.
Qed.

(** C7. Reading an attribute that is neither in the instance dictionary, nor
    defined by the class or by [object], nor the lazy [args], raises
    [AttributeError], naming the attribute; the instance and the state stay
    as they were. No value, [None] or other, is returned. *)
Theorem C7_unknown_attribute_raises self name rt :
  ¬ defined object_dict self name →
  name ≠ "args" →
  Context.getattr object_dict self name rt
  = (rt, inl (AttributeError
                ("'Context' object has no attribute '" +:+ name +:+ "'"))).
Proof.
  intros Hundef Hname. unfold Context.getattr.
  destruct (Context.instance_dict self !! name) eqn:Hi.
  { exfalso. apply Hundef. left. eauto. }
  destruct (Context.class_dict !! name) eqn:Hc.
  { exfalso. apply Hundef. right. left. eauto. }
  destruct (object_dict !! name) eqn:Ho.
  { exfalso. apply Hundef. right. right. eauto. }
  unfold Context.__getattr__.
  destruct (String.eqb_spec name "args") as [-> | _]; [done | reflexivity].
Qed.

(** Every other attribute reference returns a value. *)
Lemma getattr_defined_returns self name rt :
  defined object_dict self name ∨ name = "args" →
  ∃ rt' self' v,
    Context.getattr object_dict self name rt = (rt', inr (self', v)).
Proof.
  intros Hdef. unfold Context.getattr.
  destruct (Context.instance_dict self !! name) eqn:Hi; [by eexists _, _, _ |].
  destruct (Context.class_dict !! name) eqn:Hc; [by eexists _, _, _ |].
  destruct (object_dict !! name) eqn:Ho; [by eexists _, _, _ |].
  destruct Hdef as [[[v Hv] | [[v Hv] | [v Hv]]] | ->]; try congruence.
  by eexists _, _, _.
Qed.
End ContextTheorems.

(* ===================================================================== *)
(** * Context: the response protocol *)
(* ===================================================================== *)

Section KeywordFacts.
Implicit Types (kwargs d : gmap string PyVal) (k : string).

Lemma find_no_repeated_keyword kwargs :
  no_repeated_keyword kwargs →
  List.find (λ k, bool_decide (is_Some (kwargs !! k))) Context.passed_keywords
  = None.
Proof.
  unfold no_repeated_keyword. rewrite Forall_forall. intros H.
  assert (Hk : ∀ k, k ∈ Context.passed_keywords →
                    bool_decide (is_Some (kwargs !! k)) = false).
  { intros k Hk. apply bool_decide_eq_false_2. rewrite (H k Hk).
    by intros [? ?]. }
  unfold Context.passed_keywords in *. simpl.
  rewrite !Hk by set_solver. reflexivity.
Qed.

Lemma setdefault_union k v d : setdefault k v d = d ∪ {[k := v]}.
Proof.
  unfold setdefault. destruct (d !! k) as [x |] eqn:Hk.
  - apply map_eq. intros i. rewrite lookup_union.
    destruct (decide (i = k)) as [-> | Hne].
    + by rewrite Hk, lookup_singleton_eq.
    + rewrite lookup_singleton_ne by done. by destruct (d !! i).
  - by apply insert_union_singleton_r.
Qed.

Lemma setdefaults_union kwargs r :
  setdefault "reuse_response" (VBool false)
    (setdefault "msg" (VMsg r) (setdefault "mode" (VStr "reply") kwargs))
  = kwargs ∪ multi_defaults r.
Proof.
  rewrite !setdefault_union. unfold multi_defaults.
  rewrite !insert_union_singleton_l.
  by rewrite <- !(assoc_L (∪)).
Qed.

Lemma kwarg_union_default kwargs d k v0 v :
  d !! k = Some v → kwarg (kwargs ∪ d) k v0 = kwarg kwargs k v.
Proof.
  intros Hd. unfold kwarg. rewrite lookup_union, Hd.
  by destruct (kwargs !! k).
Qed.

Lemma kwarg_union_other kwargs d k v0 :
  d !! k = None → kwarg (kwargs ∪ d) k v0 = kwarg kwargs k v0.
Proof.
  intros Hd. unfold kwarg. rewrite lookup_union, Hd.
  by destruct (kwargs !! k).
Qed.

Lemma lookup_foldr_delete_in kwargs (ks : list string) k :
  k ∈ ks → foldr delete kwargs ks !! k = None.
Proof.
  induction ks as [| k' ks IH]; [by intros ?%elem_of_nil |].
  intros Hin. simpl. destruct (decide (k' = k)) as [-> | Hne].
  - apply lookup_delete_eq.
  - rewrite lookup_delete_ne by done. apply IH.
    apply elem_of_cons in Hin as [-> | Hin]; [done | exact Hin].
Qed.

Lemma lookup_foldr_delete_notin kwargs (ks : list string) k :
  k ∉ ks → foldr delete kwargs ks !! k = kwargs !! k.
Proof.
  induction ks as [| k' ks IH]; [done |].
  intros [Hne Hnin]%not_elem_of_cons. simpl.
  rewrite lookup_delete_ne by done. by apply IH.
Qed.

Lemma multi_defaults_other r k :
  k ∉ Context.respond_params → multi_defaults r !! k = None.
Proof.
  unfold Context.respond_params, multi_defaults. intros Hk.
  rewrite !lookup_insert_ne, lookup_singleton_ne by set_solver. reflexivity.
Qed.

Lemma extras_union_defaults kwargs r :
  foldr delete (kwargs ∪ multi_defaults r) Context.respond_params
  = foldr delete kwargs Context.respond_params.
Proof.
  apply map_eq. intros k.
  destruct (decide (k ∈ Context.respond_params)) as [Hin | Hnin].
  - by rewrite !lookup_foldr_delete_in.
  - rewrite !lookup_foldr_delete_notin by done.
    rewrite lookup_union, multi_defaults_other by done.
    by destruct (kwargs !! k).
Qed.
End KeywordFacts.

Section RespondTheorems.
Context {World : Type}.
Variable bot_respond : PyVal → RespondCall → World → World * Result Message.t.
Implicit Types (rt : Runtime World) (self : Context.t).
Implicit Types (text mode redact msg reuse_response : PyVal).
Implicit Types (kwargs : gmap string PyVal).

Lemma respond_run self text mode redact msg reuse_response kwargs rt :
  no_repeated_keyword kwargs →
  let c := Context.respond_call self text mode redact msg reuse_response kwargs in
  Context.respond bot_respond self text mode redact msg reuse_response kwargs rt
  = (after_call rt (bot_respond (Context.bot self) c (world rt)).1
                (Context.bot self) c,
     match (bot_respond (Context.bot self) c (world rt)).2 with
     | inr r => inr (responded self r mode, r)
     | inl e => inl e
     end).
Proof.
  intros Hkw c. unfold Context.respond.
  rewrite (find_no_repeated_keyword _ Hkw). run.
  unfold Context.call_bot_respond. fold c.
  by destruct (bot_respond (Context.bot self) c (world rt)) as [w [e | r]].
Qed.

(** A keyword repeated by [**kwargs] makes the call raise before the
    primitive runs: nothing is sent and the instance is as it was. *)
Lemma respond_repeated_keyword self text mode redact msg reuse_response kwargs rt :
  ¬ no_repeated_keyword kwargs →
  ∃ m, Context.respond bot_respond self text mode redact msg reuse_response
         kwargs rt = (rt, inl (TypeError m)).
Proof.
  intros Hkw. unfold Context.respond.
  destruct (List.find _ Context.passed_keywords) as [k |] eqn:Hfind.
  - by eexists.
  - exfalso. apply Hkw. unfold no_repeated_keyword. rewrite Forall_forall.
    intros k Hk. apply list_elem_of_In in Hk.
    pose proof (find_none _ _ Hfind k Hk) as Hnone. simpl in Hnone.
    apply bool_decide_eq_false_1 in Hnone.
    destruct (kwargs !! k); [| done]. exfalso. apply Hnone. eauto.
Qed.

(** C1. [respond] calls the primitive once. The [response] argument of that
    call is the stored [response] when [reuse_response] is true and [mode]
    equals the stored [response_mode], and [None] otherwise; when a response
    is stored, it is the stored one exactly in that case. The other arguments
    go through as given, with [self.msg] for a missing [msg]. When the
    primitive returns [r], [respond] returns [r] and the instance differs from
    the one before in [response], now [r], and [response_mode], now [mode],
    and in nothing else, whatever [reuse_response] was; when it raises, so
    does [respond]. Heap and allocation are untouched. *)
Theorem C1_respond_forwards_and_stores
    self text mode redact msg reuse_response kwargs rt :
  no_repeated_keyword kwargs →
  ∃ c w res,
    bot_respond (Context.bot self) c (world rt) = (w, res)
    ∧ rc_response c
      = (if truthy reuse_response && py_eq mode (Context.response_mode self)
         then Context.response self else None)
    ∧ (truthy reuse_response = true →
       py_eq mode (Context.response_mode self) = true →
       rc_response c = Context.response self)
    ∧ (¬ (truthy reuse_response = true
          ∧ py_eq mode (Context.response_mode self) = true) →
       rc_response c = None)
    ∧ (is_Some (Context.response self) →
       rc_response c = Context.response self
       ↔ truthy reuse_response = true
         ∧ py_eq mode (Context.response_mode self) = true)
    ∧ rc_msg c = (if truthy msg then msg else VMsg (Context.msg self))
    ∧ rc_text c = text
    ∧ rc_mode c = mode
    ∧ rc_redact c = redact
    ∧ rc_kwargs c = kwargs
    ∧ Context.respond bot_respond self text mode redact msg reuse_response
        kwargs rt
      = (after_call rt w (Context.bot self) c,
         match res with
         | inr r => inr (responded self r mode, r)
         | inl e => inl e
         end).
Proof.
  intros Hkw.
  set (c := Context.respond_call self text mode redact msg reuse_response kwargs).
  destruct (bot_respond (Context.bot self) c (world rt)) as [w res] eqn:Hcall.
  exists c, w, res. split; [exact Hcall |].
  split; [reflexivity |].
  split; [| split; [| split]].
  - intros Hr Hm. simpl. by rewrite Hr, Hm.
  - intros Hno. simpl.
    destruct (truthy reuse_response) eqn:Hr; [| reflexivity].
    destruct (py_eq mode (Context.response_mode self)) eqn:Hm; [| reflexivity].
    exfalso. by apply Hno.
  - intros [r Hstored]. simpl.
    destruct (truthy reuse_response) eqn:Hr;
      destruct (py_eq mode (Context.response_mode self)) eqn:Hm; simpl;
      rewrite ?Hstored; split; (done || by intros [? ?]).
  - repeat (split; [reflexivity |]).
    rewrite (respond_run _ _ _ _ _ _ _ _ Hkw). fold c. by rewrite Hcall.
Qed.

(** C10. On a [Context] just constructed, where [response] and
    [response_mode] are both [None], every [respond] forwards [None] as
    [response], for every [mode] and [reuse_response]. With [mode = None] and
    [reuse_response] true the reuse test does succeed, both modes being
    [None]; what it then forwards is the stored response, which is [None]. *)
Theorem C10_fresh_context_forwards_none
    (bot : PyVal) (m : Message.t) sid s0 rest (cmd_len : Z)
    text mode redact msg reuse_response kwargs rt :
  no_repeated_keyword kwargs →
  ∃ ctx c w res,
    Context.__init__ bot m (mkList sid (s0 :: rest)) cmd_len rt = (rt, inr ctx)
    ∧ Context.response ctx = None
    ∧ Context.response_mode ctx = VNone
    ∧ bot_respond bot c (world rt) = (w, res)
    ∧ (Context.respond bot_respond ctx text mode redact msg reuse_response
         kwargs rt).1
      = after_call rt w bot c
    ∧ rc_response c = None
    ∧ (truthy reuse_response = true →
       truthy reuse_response && py_eq VNone (Context.response_mode ctx) = true).
Proof.
  intros Hkw.
  set (ctx := Context.mk bot m (mkList sid (s0 :: rest)) cmd_len s0 None VNone
                (str_slice_from (Message.text m) cmd_len)
                (str_slice_from (Message.raw_text m) cmd_len) None).
  set (c := Context.respond_call ctx text mode redact msg reuse_response kwargs).
  destruct (bot_respond bot c (world rt)) as [w res] eqn:Hcall.
  exists ctx, c, w, res. split; [apply Context_init_nonempty |].
  repeat (split; [done |]).
  split.
  - rewrite (respond_run _ _ _ _ _ _ _ _ Hkw). fold c.
    change (Context.bot ctx) with bot. by rewrite Hcall.
  - split.
    + simpl. by destruct (_ && _).
    + intros ->. reflexivity.
Qed.
End RespondTheorems.

Section RespondMultiTheorems.
Context {World : Type}.
Variable bot_respond : PyVal → RespondCall → World → World * Result Message.t.
Implicit Types (rt : Runtime World) (self : Context.t).
Implicit Types (args : list PyVal) (kwargs : gmap string PyVal).

Lemma call_respond_bound self args kwargs text rt :
  binds_text args kwargs text →
  Context.call_respond bot_respond self args kwargs rt
  = Context.respond bot_respond self text
      (kwarg kwargs "mode" VNone) (kwarg kwargs "redact" VNone)
      (kwarg kwargs "msg" VNone) (kwarg kwargs "reuse_response" (VBool false))
      (foldr delete kwargs Context.respond_params) rt.
Proof.
  intros [Hself [[-> ->] | [-> Htext]]]; unfold Context.call_respond;
    rewrite Hself; simpl; [reflexivity |].
  rewrite Htext. reflexivity.
Qed.

Lemma binds_text_defaults args kwargs text r :
  binds_text args kwargs text →
  binds_text args (kwargs ∪ multi_defaults r) text.
Proof.
  intros [Hself Hargs]. split.
  - rewrite lookup_union, Hself. reflexivity.
  - destruct Hargs as [[-> ->] | [-> Htext]]; [left | right]; split; try done.
    + symmetry. by apply kwarg_union_other.
    + rewrite lookup_union, Htext. reflexivity.
Qed.

Lemma respond_multi_run self args kwargs rt :
  Context.respond_multi bot_respond self args kwargs rt
  = Context.call_respond bot_respond self args
      (match Context.response self with
       | Some r => kwargs ∪ multi_defaults r
       | None => kwargs
       end) rt.
Proof.
  unfold Context.respond_multi.
  destruct (Context.response self) as [r |]; simpl; [| reflexivity].
  by rewrite setdefaults_union.
Qed.

(** C2. [respond_multi] delegates to [respond]. Once a response [r] is
    stored, the keywords it hands over are the caller's, completed by
    [mode = "reply"], [msg = r] and [reuse_response = False] for those of the
    three the caller did not give, so [respond] runs with the caller's value
    of each where there is one and with these defaults elsewhere. While no
    response is stored, the keywords go through as they are, and the call is
    the [respond] call the caller would have made. *)
Theorem C2_respond_multi_defaults self args kwargs rt :
  Context.respond_multi bot_respond self args kwargs rt
  = Context.call_respond bot_respond self args
      (match Context.response self with
       | Some r => kwargs ∪ multi_defaults r
       | None => kwargs
       end) rt
  ∧ (∀ r text,
       Context.response self = Some r →
       binds_text args kwargs text →
       Context.respond_multi bot_respond self args kwargs rt
       = Context.respond bot_respond self text
           (kwarg kwargs "mode" (VStr "reply"))
           (kwarg kwargs "redact" VNone)
           (kwarg kwargs "msg" (VMsg r))
           (kwarg kwargs "reuse_response" (VBool false))
           (foldr delete kwargs Context.respond_params) rt)
  ∧ (∀ text,
       Context.response self = None →
       binds_text args kwargs text →
       Context.respond_multi bot_respond self args kwargs rt
       = Context.respond bot_respond self text
           (kwarg kwargs "mode" VNone)
           (kwarg kwargs "redact" VNone)
           (kwarg kwargs "msg" VNone)
           (kwarg kwargs "reuse_response" (VBool false))
           (foldr delete kwargs Context.respond_params) rt).
Proof.
  split; [apply respond_multi_run |]. split.
  - intros r text Hr Hbind. rewrite respond_multi_run, Hr.
    rewrite (call_respond_bound _ _ _ text) by by apply binds_text_defaults.
    rewrite extras_union_defaults.
    rewrite (kwarg_union_default _ _ "mode" _ (VStr "reply")) by reflexivity.
    rewrite (kwarg_union_default _ _ "msg" _ (VMsg r)) by reflexivity.
    rewrite (kwarg_union_default _ _ "reuse_response" _ (VBool false))
      by reflexivity.
    rewrite (kwarg_union_other _ _ "redact") by reflexivity.
    reflexivity.
  - intros text Hr Hbind. rewrite respond_multi_run, Hr.
    by apply call_respond_bound.
Qed.
End RespondMultiTheorems.

(* ===================================================================== *)
(** * The theorems on concrete inputs *)
(* ===================================================================== *)

Lemma no_repeated_keyword_empty : no_repeated_keyword ∅.
Proof. unfold no_repeated_keyword, Context.passed_keywords. repeat constructor. Qed.

(** C1 on a second response in the mode of the first, asking for reuse: the
    stored response is forwarded. *)
Lemma C1_reuse_in_the_same_mode :
  no_repeated_keyword ∅
  ∧ ∃ c w res,
      sample_respond sample_bot c (world sample_rt) = (w, res)
      ∧ rc_response c = Some sample_response
      ∧ Context.respond sample_respond sample_ctx_responded
          (VStr "B") (VStr "reply") VNone VNone (VBool true) ∅ sample_rt
        = (after_call sample_rt w sample_bot c,
           match res with
           | inr r => inr (responded sample_ctx_responded r (VStr "reply"), r)
           | inl e => inl e
           end).
Proof.
  split; [exact no_repeated_keyword_empty |].
  destruct (C1_respond_forwards_and_stores sample_respond sample_ctx_responded
              (VStr "B") (VStr "reply") VNone VNone (VBool true) ∅ sample_rt
              no_repeated_keyword_empty)
    as (c & w & res & Hcall & Hfwd & _ & _ & _ & _ & _ & _ & _ & _ & Hrun).
  exists c, w, res. split; [exact Hcall |]. split; [exact Hfwd | exact Hrun].
Defined.

(** C2 on a second [respond_multi] with no keyword given: it replies to the
    first response with a new message. *)
Lemma C2_second_call_replies_to_the_first :
  Context.response sample_ctx_responded = Some sample_response
  ∧ binds_text [VStr "B"] ∅ (VStr "B")
  ∧ Context.respond_multi sample_respond sample_ctx_responded [VStr "B"] ∅
      sample_rt
    = Context.respond sample_respond sample_ctx_responded (VStr "B")
        (VStr "reply") VNone (VMsg sample_response) (VBool false) ∅ sample_rt.
Proof.
  assert (Hbind : binds_text [VStr "B"] ∅ (VStr "B")).
  { split; [reflexivity |]. right. split; reflexivity. }
  split; [reflexivity |]. split; [exact Hbind |].
  destruct (C2_respond_multi_defaults sample_respond sample_ctx_responded
              [VStr "B"] ∅ sample_rt) as (_ & Hsome & _).
  exact (Hsome sample_response (VStr "B") eq_refl Hbind).
Defined.

(** C3 on no segments and on the segments of "echo hi". *)
Lemma C3_empty_and_non_empty_segments :
  Context.__init__ sample_bot sample_msg (mkList 100%positive []) 6 sample_rt
  = (sample_rt, inl (IndexError "list index out of range"))
  ∧ ∃ ctx,
      Context.__init__ sample_bot sample_msg sample_segments 6 sample_rt
      = (sample_rt, inr ctx)
      ∧ Context.invoker ctx = "echo"
      ∧ Context.segments ctx = sample_segments.
Proof.
  split.
  - exact (proj1 (C3_context_needs_segments sample_bot sample_msg
                    (mkList 100%positive []) 6 sample_rt) eq_refl).
  - exact (proj1 (proj2 (C3_context_needs_segments sample_bot sample_msg
                           sample_segments 6 sample_rt)) "echo" ["hi"] eq_refl).
Defined.

(** C5 on three reads of [args] after construction from "echo hi". *)
Lemma C5_three_reads_one_list :
  (∅ : gmap string PyVal) !! "args" = None
  ∧ ∃ ctx,
      Context.__init__ sample_bot sample_msg sample_segments 6 sample_rt
      = (sample_rt, inr ctx)
      ∧ Context.args ctx = None
      ∧ Context.read_many ∅ 3 "args" ctx sample_rt
        = (set_next_id 2%positive sample_rt,
           inr (Context.set_args (mkList 1%positive ["hi"]) ctx,
                replicate 3 (VList (mkList 1%positive ["hi"])))).
Proof.
  assert (Hobj : (∅ : gmap string PyVal) !! "args" = None) by reflexivity.
  split; [exact Hobj |].
  destruct (C5_args_is_computed_once ∅ sample_bot sample_msg 100%positive
              "echo" ["hi"] 6 2 sample_rt Hobj)
    as (ctx & Hinit & Hargs & Hread & _).
  exists ctx. split; [exact Hinit |]. split; [exact Hargs | exact Hread].
Defined.

(** C6 on the message "/echo **hi**", plain "/echo hi", with [cmd_len = 6]. *)
Lemma C6_echo_hi :
  ∃ ctx,
    Context.__init__ sample_bot sample_msg sample_segments 6 sample_rt
    = (sample_rt, inr ctx)
    ∧ Context.input ctx = "**hi**"
    ∧ Context.parsed_input ctx = "hi"
    ∧ Context.instance_dict ctx !! "args" = None
    ∧ Message.text sample_msg = "/echo " +:+ Context.input ctx
    ∧ Message.raw_text sample_msg = "/echo " +:+ Context.parsed_input ctx.
Proof.
  destruct (C6_input_is_sliced_at_construction sample_bot sample_msg
              100%positive "echo" ["hi"] 6 sample_rt)
    as (ctx & Hinit & Hin & Hpin & _ & _ & Hargs & Htext & Hraw).
  exists ctx. split; [exact Hinit |].
  split; [exact Hin |]. split; [exact Hpin |]. split; [exact Hargs |].
  split.
  - apply Htext. simpl. lia.
  - apply Hraw. simpl. lia.
Defined.

Lemma sample_nope_undefined : ¬ defined ∅ sample_ctx "nope".
Proof. intros [[v Hv] | [[v Hv] | [v Hv]]]; vm_compute in Hv; discriminate. Qed.

(** C7 on [ctx.nope]. *)
Lemma C7_nope_raises :
  ¬ defined ∅ sample_ctx "nope"
  ∧ "nope" ≠ "args"
  ∧ Context.getattr ∅ sample_ctx "nope" sample_rt
    = (sample_rt,
       inl (AttributeError "'Context' object has no attribute 'nope'")).
Proof.
  assert (Hne : "nope" ≠ "args") by discriminate.
  split; [exact sample_nope_undefined |]. split; [exact Hne |].
  exact (C7_unknown_attribute_raises ∅ sample_ctx "nope" sample_rt
           sample_nope_undefined Hne).
Defined.

(** C10 on [respond(mode=None, reuse_response=True)] right after
    construction. *)
Lemma C10_fresh_reuse_with_no_mode :
  no_repeated_keyword ∅
  ∧ ∃ ctx c w res,
      Context.__init__ sample_bot sample_msg sample_segments 6 sample_rt
      = (sample_rt, inr ctx)
      ∧ sample_respond sample_bot c (world sample_rt) = (w, res)
      ∧ (Context.respond sample_respond ctx (VStr "A") VNone VNone VNone
           (VBool true) ∅ sample_rt).1
        = after_call sample_rt w sample_bot c
      ∧ rc_response c = None
      ∧ truthy (VBool true) && py_eq VNone (Context.response_mode ctx) = true.
Proof.
  split; [exact no_repeated_keyword_empty |].
  destruct (C10_fresh_context_forwards_none sample_respond sample_bot
              sample_msg 100%positive "echo" ["hi"] 6
              (VStr "A") VNone VNone VNone (VBool true) ∅ sample_rt
              no_repeated_keyword_empty)
    as (ctx & c & w & res & Hinit & _ & _ & Hcall & Hrun & Hfwd & Hcond).
  exists ctx, c, w, res. split; [exact Hinit |]. split; [exact Hcall |].
  split; [exact Hrun |]. split; [exact Hfwd | exact (Hcond eq_refl)].
Defined.

(* ===================================================================== *)
(** * Two responses in a row *)
(* ===================================================================== *)

Section Protocol.
Context {World : Type}.
Variable bot_respond : PyVal → RespondCall → World → World * Result Message.t.
Implicit Types (rt : Runtime World) (self : Context.t).

(** After a response [r1] sent in mode [mode1], a [respond] that asks for
    reuse forwards [r1] when its mode equals [mode1], and [None] when it does
    not; either way the instance then describes this last call. *)
Lemma respond_after_respond self self1 r1 text1 mode1 redact1 msg1 reuse1
    kwargs1 rt rt1 text2 mode2 redact2 msg2 kwargs2 :
  no_repeated_keyword kwargs2 →
  Context.respond bot_respond self text1 mode1 redact1 msg1 reuse1 kwargs1 rt
  = (rt1, inr (self1, r1)) →
  ∃ c w res,
    Context.respond bot_respond self1 text2 mode2 redact2 msg2 (VBool true)
      kwargs2 rt1
    = (after_call rt1 w (Context.bot self) c,
       match res with
       | inr r2 => inr (responded self r2 mode2, r2)
       | inl e => inl e
       end)
    ∧ rc_response c = (if py_eq mode2 mode1 then Some r1 else None).
Proof.
  intros Hkw2 Hfirst.
  assert (Hself1 : self1 = responded self r1 mode1).
  { unfold Context.respond in Hfirst.
    destruct (List.find _ Context.passed_keywords); [discriminate |].
    run. unfold Context.call_bot_respond in Hfirst.
    destruct (bot_respond _ _ _) as [w [e | r]]; [discriminate |].
    by injection Hfirst as _ <- <-. }
  subst self1. rewrite (respond_run _ _ _ _ _ _ _ _ _ Hkw2). simpl.
  eexists _, _, _. split; reflexivity.
Qed.
End Protocol.

(* ===================================================================== *)
(** * Further properties: attribute reads *)
(* ===================================================================== *)

Section AttributeReads.
Context {World : Type}.
Variable object_dict : gmap string PyVal.
Implicit Types (rt : Runtime World) (self : Context.t) (name : string).

Lemma items_slice_from_1 (l : list string) : items_slice_from l 1 = drop 1 l.
Proof. by destruct l. Qed.

Lemma same_but_args_refl self : same_but_args self self.
Proof. by repeat split. Qed.

Lemma same_but_args_set_args a self : same_but_args self (Context.set_args a self).
Proof. by repeat split. Qed.


(** X2. No attribute read calls the primitive, touches the heap of function
    objects or the world, or changes a field other than [args]. A read that
    raises changes nothing at all; one that returns either changes nothing,
    or is the read of [args] on an instance that had none, which stores the
    new list [segments[1:]] under [args]. *)
Theorem X2_attribute_read_frame self name rt :
  heap (Context.getattr object_dict self name rt).1 = heap rt
  ∧ world (Context.getattr object_dict self name rt).1 = world rt
  ∧ calls (Context.getattr object_dict self name rt).1 = calls rt
  ∧ match (Context.getattr object_dict self name rt).2 with
    | inl _ => (Context.getattr object_dict self name rt).1 = rt
    | inr (self', _) =>
        same_but_args self self'
        ∧ ((self' = self ∧ (Context.getattr object_dict self name rt).1 = rt)
           ∨ (name = "args"
              ∧ Context.args self = None
              ∧ Context.args self'
                = Some (mkList (next_id rt)
                          (drop 1 (list_items (Context.segments self))))))
    end.
Proof.
  unfold Context.getattr.
  destruct (Context.instance_dict self !! name) as [vi |] eqn:Hi.
  { simpl. repeat (split; [reflexivity |]).
    split; [apply same_but_args_refl | by left]. }
  destruct (Context.class_dict !! name) as [vc |] eqn:Hc.
  { simpl. repeat (split; [reflexivity |]).
    split; [apply same_but_args_refl | by left]. }
  destruct (object_dict !! name) as [vo |] eqn:Ho.
  { simpl. repeat (split; [reflexivity |]).
    split; [apply same_but_args_refl | by left]. }
  unfold Context.__getattr__.
  destruct (String.eqb_spec name "args") as [-> | Hne].
  - simpl. repeat (split; [reflexivity |]).
    split; [apply same_but_args_set_args |]. right.
    split; [reflexivity |]. split; [| by rewrite items_slice_from_1].
    rewrite instance_dict_args in Hi. by destruct (Context.args self).
  - simpl. by repeat split.
Qed.
End AttributeReads.



(* ===================================================================== *)
(** * Further properties: [cmd_len] out of range *)
(* ===================================================================== *)

Lemma string_drop_all n s : (String.length s ≤ n)%nat → string_drop n s = "".
Proof.
  revert s. induction n as [| n IH]; intros s Hlen.
  - destruct s; [reflexivity | simpl in Hlen; lia].
  - destruct s as [| c s]; [reflexivity |]. simpl in *. apply IH. lia.
Qed.

Lemma str_slice_from_bounds s k :
  (∃ p, s = p +:+ str_slice_from s k)
  ∧ (String.length (str_slice_from s k) ≤ String.length s)%nat
  ∧ (Z.of_nat (String.length s) ≤ k → str_slice_from s k = "")
  ∧ (k ≤ - Z.of_nat (String.length s) → str_slice_from s k = s)
  ∧ (- Z.of_nat (String.length s) ≤ k < 0 →
     Z.of_nat (String.length (str_slice_from s k)) = - k).
Proof.
  unfold str_slice_from. split; [| split; [| split; [| split]]].
  - eexists. symmetry. apply substring_string_drop.
  - rewrite string_drop_length. lia.
  - intros Hk. apply string_drop_all. unfold slice_start.
    destruct (Z.ltb_spec k 0); lia.
  - intros Hk. unfold slice_start.
    destruct (Z.ltb_spec k 0) as [Hneg | Hpos].
    + by replace (Z.to_nat (Z.max 0 (Z.of_nat (String.length s) + k))) with O
        by lia.
    + by replace (Nat.min (Z.to_nat k) (String.length s)) with O by lia.
  - intros Hk. rewrite string_drop_length. unfold slice_start.
    destruct (Z.ltb_spec k 0); lia.
Qed.

Section CmdLenBounds.
Context {World : Type}.
Implicit Types (rt : Runtime World).

(** X3. Construction does not check [cmd_len]: whatever integer it is, a
    [Context] is built and [input] is a suffix of the message text, no longer
    than it. A [cmd_len] at or past the end gives the empty string; a
    negative one counts from the end, giving the last [-cmd_len] characters,
    or the whole text when it reaches before the start. The same holds of
    [parsed_input] and the plain text. *)
Theorem X3_cmd_len_is_not_checked (bot : PyVal) (msg : Message.t)
    sid s0 rest (cmd_len : Z) rt :
  ∃ ctx,
    Context.__init__ bot msg (mkList sid (s0 :: rest)) cmd_len rt = (rt, inr ctx)
    ∧ (∃ p, Message.text msg = p +:+ Context.input ctx)
    ∧ (∃ p, Message.raw_text msg = p +:+ Context.parsed_input ctx)
    ∧ (String.length (Context.input ctx) ≤ String.length (Message.text msg))%nat
    ∧ (Z.of_nat (String.length (Message.text msg)) ≤ cmd_len →
       Context.input ctx = "")
    ∧ (Z.of_nat (String.length (Message.raw_text msg)) ≤ cmd_len →
       Context.parsed_input ctx = "")
    ∧ (cmd_len ≤ - Z.of_nat (String.length (Message.text msg)) →
       Context.input ctx = Message.text msg)
    ∧ (- Z.of_nat (String.length (Message.text msg)) ≤ cmd_len < 0 →
       Z.of_nat (String.length (Context.input ctx)) = - cmd_len)
    ∧ (- Z.of_nat (String.length (Message.raw_text msg)) ≤ cmd_len < 0 →
       Z.of_nat (String.length (Context.parsed_input ctx)) = - cmd_len).
Proof.
  eexists. split; [apply Context_init_nonempty |]. simpl.
  destruct (str_slice_from_bounds (Message.text msg) cmd_len)
    as (Hsuf & Hlen & Hpast & Hbefore & Hneg).
  destruct (str_slice_from_bounds (Message.raw_text msg) cmd_len)
    as (Hsuf' & _ & Hpast' & _ & Hneg').
  repeat (split; [assumption |]). assumption.
Qed.
End CmdLenBounds.

(** X3 on [cmd_len = 100], [cmd_len = -2] and [cmd_len = -100] for the
    message "/echo **hi**", plain "/echo hi". *)
Lemma X3_cmd_len_past_the_end_and_negative :
  (∃ ctx,
     Context.__init__ sample_bot sample_msg sample_segments 100 sample_rt
     = (sample_rt, inr ctx)
     ∧ Context.input ctx = "" ∧ Context.parsed_input ctx = "")
  ∧ (∃ ctx,
       Context.__init__ sample_bot sample_msg sample_segments (-2) sample_rt
       = (sample_rt, inr ctx)
       ∧ Z.of_nat (String.length (Context.input ctx)) = 2
       ∧ Z.of_nat (String.length (Context.parsed_input ctx)) = 2)
  ∧ (∃ ctx,
       Context.__init__ sample_bot sample_msg sample_segments (-100) sample_rt
       = (sample_rt, inr ctx)
       ∧ Context.input ctx = "/echo **hi**").
Proof.
  split; [| split].
  - destruct (X3_cmd_len_is_not_checked sample_bot sample_msg 100%positive
                "echo" ["hi"] 100 sample_rt)
      as (ctx & Hinit & _ & _ & _ & Hpast & Hpast' & _).
    exists ctx. split; [exact Hinit |].
    split; [apply Hpast | apply Hpast']; simpl; lia.
  - destruct (X3_cmd_len_is_not_checked sample_bot sample_msg 100%positive
                "echo" ["hi"] (-2) sample_rt)
      as (ctx & Hinit & _ & _ & _ & _ & _ & _ & Hneg & Hneg').
    exists ctx. split; [exact Hinit |].
    split; [apply Hneg | apply Hneg']; simpl; lia.
  - destruct (X3_cmd_len_is_not_checked sample_bot sample_msg 100%positive
                "echo" ["hi"] (-100) sample_rt)
      as (ctx & Hinit & _ & _ & _ & _ & _ & Hbefore & _).
    exists ctx. split; [exact Hinit |]. apply Hbefore. simpl. lia.
Defined.

(* ===================================================================== *)
(** * Further properties: stacks of decorators *)
(* ===================================================================== *)

Section TagStacks.
Context {World : Type}.
Implicit Types (rt : Runtime World) (f : loc) (d : gmap string PyVal).
Implicit Types (ts : list Tag).

Lemma obj_at_with_attrs f d rt :
  obj_at (with_attrs f d rt) f = mkObj (obj_code (obj_at rt f)) d.
Proof. unfold with_attrs, obj_at. simpl. by rewrite lookup_insert_eq. Qed.

Lemma with_attrs_twice f d1 d2 rt :
  with_attrs f d2 (with_attrs f d1 rt) = with_attrs f d2 rt.
Proof.
  unfold with_attrs at 1. rewrite obj_at_with_attrs. simpl.
  unfold with_attrs, set_heap. simpl. by rewrite insert_insert_eq.
Qed.

Lemma setattr_run f k v rt :
  setattr f k v rt = (with_attrs f (<[k := v]> (obj_attrs (obj_at rt f))) rt, inr tt).
Proof. reflexivity. Qed.

Lemma apply_tag_run t f rt :
  apply_tag t f rt
  = (with_attrs f (tag_attrs t (obj_attrs (obj_at rt f))) rt, inr f).
Proof.
  destruct t as [s | u o r | a]; simpl;
    unfold desc, desc_decorator, usage, usage_decorator, alias, alias_decorator;
    unfold mbind, M_bind, bind, mret, M_ret, ret;
    rewrite ?setattr_run, ?obj_at_with_attrs; simpl;
    rewrite ?setattr_run, ?obj_at_with_attrs; simpl;
    by rewrite ?with_attrs_twice.
Qed.

Lemma apply_tags_run t ts f rt :
  apply_tags (t :: ts) f rt
  = (with_attrs f (tags_attrs (t :: ts) (obj_attrs (obj_at rt f))) rt, inr f).
Proof.
  revert t rt. induction ts as [| t' ts IH]; intros t rt.
  - simpl. unfold mbind, M_bind, bind. by rewrite apply_tag_run.
  - change (apply_tags (t :: t' :: ts) f rt)
      with (bind (apply_tag t f) (apply_tags (t' :: ts)) rt).
    unfold bind. rewrite apply_tag_run, IH, obj_at_with_attrs. simpl.
    by rewrite with_attrs_twice.
Qed.

Lemma tags_attrs_determined ts ts' d :
  last_desc ts = last_desc ts' →
  last_usage ts = last_usage ts' →
  last_alias ts = last_alias ts' →
  tags_attrs ts d = tags_attrs ts' d.
Proof.
  intros Hd Hu Ha. apply map_eq. intros k.
  destruct (decide (k ∈ tag_keys)) as [Hin | Hnin].
  - unfold tag_keys in Hin.
    repeat (apply elem_of_cons in Hin as [-> | Hin]).
    + by rewrite !tags_attrs_description, Hd.
    + by rewrite !tags_attrs_usage, Hu.
    + by rewrite !tags_attrs_usage_optional, Hu.
    + by rewrite !tags_attrs_usage_reply, Hu.
    + by rewrite !tags_attrs_aliases, Ha.
    + by apply elem_of_nil in Hin.
  - by rewrite !tags_attrs_other.
Qed.

(** X4. What a stack of decorators leaves depends only on the last [desc],
    the last [usage] and the last [alias] in it: two non-empty stacks that
    agree on these three end in the same state and return the same function.
    So decorators of different kinds may be stacked in any order, and a
    decorator repeated or overridden below the last of its kind has no
    effect. *)
Theorem X4_stack_is_its_last_decorators ts ts' f rt :
  ts ≠ [] → ts' ≠ [] →
  last_desc ts = last_desc ts' →
  last_usage ts = last_usage ts' →
  last_alias ts = last_alias ts' →
  apply_tags ts f rt = apply_tags ts' f rt.
Proof.
  intros Hne Hne' Hd Hu Ha.
  destruct ts as [| t ts]; [done |]. destruct ts' as [| t' ts']; [done |].
  rewrite !apply_tags_run.
  by rewrite (tags_attrs_determined _ (t' :: ts') _ Hd Hu Ha).
Qed.

(** X5. [Command] reads back what the decorators wrote: built from a
    function after a stack of decorators, its [desc] is the argument of the
    last [desc], its [usage], [usage_optional] and [usage_reply] those of the
    last [usage], and its [aliases] the tuple of the last [alias]; a field
    whose decorator is not in the stack has what the function carried
    before, or its default. *)
Theorem X5_command_reads_the_decorators ts f (name : string) (mod_ : PyVal) rt :
  ∃ rt1 rt2 c,
    apply_tags ts f rt = (rt1, inr f)
    ∧ Command.__init__ name mod_ f rt1 = (rt2, inr c)
    ∧ Command.func c = f
    ∧ Command.desc c
      = match last_desc ts with
        | Some s => VStr s
        | None => default VNone (attr rt f "_cmd_description")
        end
    ∧ Command.usage c
      = match last_usage ts with
        | Some (u, _, _) => VStr u
        | None => default VNone (attr rt f "_cmd_usage")
        end
    ∧ Command.usage_optional c
      = match last_usage ts with
        | Some (_, o, _) => VBool o
        | None => default (VBool false) (attr rt f "_cmd_usage_optional")
        end
    ∧ Command.usage_reply c
      = match last_usage ts with
        | Some (_, _, r) => VBool r
        | None => default (VBool false) (attr rt f "_cmd_usage_reply")
        end
    ∧ Command.aliases c
      = match last_alias ts with
        | Some a => VTuple a
        | None =>
            default (VList (mkList (next_id rt) [])) (attr rt f "_cmd_aliases")
        end.
Proof.
  destruct (apply_tags_retagged ts f rt) as (rt1 & Hrun & Hre).
  pose proof (retagged_attrs _ _ _ _ Hre) as Hattrs.
  destruct Hre as (_ & _ & Hn & _ & _).
  eexists rt1, _, _. split; [exact Hrun |].
  split; [apply Command_init_run |]. simpl. split; [reflexivity |].
  unfold attr. rewrite Hattrs, Hn.
  rewrite tags_attrs_description, tags_attrs_usage, tags_attrs_usage_optional,
    tags_attrs_usage_reply, tags_attrs_aliases.
  destruct (last_desc ts), (last_usage ts) as [[[u o] r] |], (last_alias ts);
    by repeat split.
Qed.
End TagStacks.

(** X4 on [desc] and [alias] in both orders, with a [desc] overridden. *)
Lemma X4_desc_and_alias_commute :
  apply_tags [TDesc "Echo"; TAlias ["e"]] sample_func sample_heap_rt
  = apply_tags [TAlias ["e"]; TDesc "old"; TDesc "Echo"] sample_func
      sample_heap_rt.
Proof.
  apply (X4_stack_is_its_last_decorators
           [TDesc "Echo"; TAlias ["e"]]
           [TAlias ["e"]; TDesc "old"; TDesc "Echo"]
           sample_func sample_heap_rt); (discriminate || reflexivity).
Defined.

(* ===================================================================== *)
(** * Further properties: calls that raise, calls in a row *)
(* ===================================================================== *)

Section ResponseSequences.
Context {World : Type}.
Variable bot_respond : PyVal → RespondCall → World → World * Result Message.t.
Implicit Types (rt : Runtime World) (self : Context.t).
Implicit Types (text mode redact msg reuse_response : PyVal).
Implicit Types (args : list PyVal) (kwargs : gmap string PyVal).

Lemma response_is_no_param : "response" ∉ Context.respond_params.
Proof.
  rewrite list_elem_of_In. unfold Context.respond_params. simpl.
  intros [H | [H | [H | [H | [H | []]]]]]; discriminate.
Qed.


Lemma repeated_keyword_extras kwargs :
  is_Some (kwargs !! "response") →
  ¬ no_repeated_keyword (foldr delete kwargs Context.respond_params).
Proof.
  intros [v Hv] Hno. unfold no_repeated_keyword in Hno.
  rewrite Forall_forall in Hno.
  assert (Hin : "response" ∈ Context.passed_keywords)
    by (apply list_elem_of_In; simpl; tauto).
  specialize (Hno _ Hin).
  rewrite lookup_foldr_delete_notin in Hno; [congruence |].
  apply response_is_no_param.
Qed.

Lemma respond_returns self text mode redact msg reuse_response kwargs rt rt1
    self1 r1 :
  Context.respond bot_respond self text mode redact msg reuse_response kwargs rt
  = (rt1, inr (self1, r1)) →
  self1 = responded self r1 mode
  ∧ ∃ w,
      bot_respond (Context.bot self)
        (Context.respond_call self text mode redact msg reuse_response kwargs)
        (world rt) = (w, inr r1)
      ∧ rt1 = after_call rt w (Context.bot self)
                (Context.respond_call self text mode redact msg reuse_response
                   kwargs).
Proof.
  unfold Context.respond.
  destruct (List.find _ Context.passed_keywords); [discriminate |].
  run. unfold Context.call_bot_respond.
  destruct (bot_respond _ _ _) as [w [e | r]]; [discriminate |].
  intros [= <- <- <-]. split; [reflexivity |]. by exists w.
Qed.

Lemma respond_multi_bound self args kwargs text rt :
  binds_text args kwargs text →
  Context.respond_multi bot_respond self args kwargs rt
  = Context.respond bot_respond self text
      (kwarg kwargs "mode"
         (match Context.response self with
          | Some _ => VStr "reply"
          | None => VNone
          end))
      (kwarg kwargs "redact" VNone)
      (kwarg kwargs "msg" (of_optional (Context.response self)))
      (kwarg kwargs "reuse_response" (VBool false))
      (foldr delete kwargs Context.respond_params) rt.
Proof.
  intros Hbind. rewrite respond_multi_run.
  destruct (Context.response self) as [r |]; [| by apply call_respond_bound].
  rewrite (call_respond_bound _ _ _ _ text) by by apply binds_text_defaults.
  rewrite extras_union_defaults.
  rewrite (kwarg_union_default _ _ "mode" _ (VStr "reply")) by reflexivity.
  rewrite (kwarg_union_default _ _ "msg" _ (VMsg r)) by reflexivity.
  rewrite (kwarg_union_default _ _ "reuse_response" _ (VBool false))
    by reflexivity.
  by rewrite (kwarg_union_other _ _ "redact") by reflexivity.
Qed.

(** X6. A keyword in [**kwargs] that [respond] itself passes to the primitive
    by name ([response], or [mode] or [redact] could the caller give them
    there) makes [respond] raise [TypeError] at the call: the primitive does
    not run, nothing is logged, and the instance keeps its [response] and
    [response_mode]. *)
Theorem X6_respond_rejects_repeated_keyword
    self text mode redact msg reuse_response kwargs (k : string) rt :
  k ∈ Context.passed_keywords →
  is_Some (kwargs !! k) →
  ∃ m, Context.respond bot_respond self text mode redact msg reuse_response
         kwargs rt = (rt, inl (TypeError m)).
Proof.
  intros Hk [v Hv]. apply respond_repeated_keyword.
  unfold no_repeated_keyword. rewrite Forall_forall. intros Hno.
  specialize (Hno k Hk). congruence.
Qed.

(** X7. After a call of [respond] that returned [r1] in mode [mode1], the
    next call on the instance it left forwards [r1] when it asks for reuse in
    a mode equal to [mode1] and [None] otherwise; when it returns [r2] the
    instance holds [r2] and the new mode, and nothing of the first call. *)
Theorem X7_respond_after_respond
    self self1 r1 text1 mode1 redact1 msg1 reuse1 kwargs1 rt rt1
    text2 mode2 redact2 msg2 reuse2 kwargs2 :
  no_repeated_keyword kwargs2 →
  Context.respond bot_respond self text1 mode1 redact1 msg1 reuse1 kwargs1 rt
  = (rt1, inr (self1, r1)) →
  ∃ c w res,
    Context.respond bot_respond self1 text2 mode2 redact2 msg2 reuse2 kwargs2 rt1
    = (after_call rt1 w (Context.bot self) c,
       match res with
       | inr r2 => inr (responded self r2 mode2, r2)
       | inl e => inl e
       end)
    ∧ bot_respond (Context.bot self) c (world rt1) = (w, res)
    ∧ rc_response c
      = (if truthy reuse2 && py_eq mode2 mode1 then Some r1 else None)
    ∧ calls rt1
      = (calls rt ++ [(Context.bot self,
                       Context.respond_call self text1 mode1 redact1
                         msg1 reuse1 kwargs1)])%list.
Proof.
  intros Hkw2 Hfirst.
  destruct (respond_returns _ _ _ _ _ _ _ _ _ _ _ Hfirst)
    as (-> & w1 & Hcall1 & ->).
  rewrite (respond_run _ _ _ _ _ _ _ _ _ Hkw2). simpl.
  eexists _, _, _. split; [reflexivity |].
  split; [apply surjective_pairing |]. split; reflexivity.
Qed.


(** X9. [respond_multi] raises [TypeError], without running the primitive
    and without touching the instance, when it is given more than one
    positional argument, when [text] comes both by position and by keyword,
    and when a [response] keyword is among [**kwargs]. *)
Theorem X9_respond_multi_rejects_bad_arguments self args kwargs rt :
  (2 ≤ length args)%nat
  ∨ (args ≠ [] ∧ is_Some (kwargs !! "text"))
  ∨ is_Some (kwargs !! "response") →
  ∃ m, Context.respond_multi bot_respond self args kwargs rt
       = (rt, inl (TypeError m)).
Proof.
  intros Hbad. rewrite respond_multi_run.
  set (kw := match Context.response self with
             | Some r => kwargs ∪ multi_defaults r
             | None => kwargs
             end).
  assert (Hkw : ∀ k, is_Some (kwargs !! k) → is_Some (kw !! k)).
  { intros k [v Hv]. unfold kw. destruct (Context.response self); [| eauto].
    exists v. by apply lookup_union_Some_l. }
  unfold Context.call_respond.
  case_bool_decide as Hself; [by eexists |].
  destruct args as [| a [| b args]].
  - destruct Hbad as [Hlen | [[Hne _] | Hresp]];
      [simpl in Hlen; lia | done |].
    apply respond_repeated_keyword, repeated_keyword_extras, Hkw, Hresp.
  - case_bool_decide as Htext; [by eexists |].
    destruct Hbad as [Hlen | [[_ Hdup] | Hresp]];
      [simpl in Hlen; lia | by destruct Htext; apply Hkw |].
    apply respond_repeated_keyword, repeated_keyword_extras, Hkw, Hresp.
  - by eexists.
Qed.
End ResponseSequences.

Section ReplyChain.
Context {World : Type}.
Variable bot_respond : PyVal → RespondCall → World → World * Result Message.t.
Implicit Types (rt : Runtime World) (self : Context.t).

Lemma extras_empty (ks : list string) :
  foldr delete (∅ : gmap string PyVal) ks = ∅.
Proof. induction ks as [| k ks IH]; simpl; [done |]. by rewrite IH, delete_empty. Qed.

Lemma binds_text_one (text : PyVal) : binds_text [text] ∅ text.
Proof. split; [reflexivity |]. right. by split. Qed.

Lemma respond_multi_text_returns self (text : PyVal) rt rt1 self1 r :
  Context.respond_multi bot_respond self [text] ∅ rt = (rt1, inr (self1, r)) →
  let mode := match Context.response self with
              | Some _ => VStr "reply"
              | None => VNone
              end in
  self1 = responded self r mode
  ∧ calls rt1
    = (calls rt
       ++ [(Context.bot self,
            mkCall (VMsg (default (Context.msg self) (Context.response self)))
                   text mode VNone None ∅)])%list
  ∧ heap rt1 = heap rt
  ∧ next_id rt1 = next_id rt.
Proof.
  rewrite (respond_multi_bound _ _ _ _ _ _ (binds_text_one text)).
  rewrite extras_empty.
  intros Hret. apply respond_returns in Hret as (-> & w & _ & ->).
  simpl. split; [reflexivity |]. split; [| done].
  do 2 f_equal. unfold Context.respond_call.
  by destruct (Context.response self).
Qed.

(** X10. A run of [respond_multi(text)], once per text with no keyword, that
    returns the messages [rs] has made one call of the primitive per text, in
    order, none of them an edit: the first as the instance stood (to
    [self.msg] with no mode when nothing was stored), each later one in mode
    "reply" to the message the call before it returned. The instance ends
    holding the last message returned; heap and allocation are untouched. *)
Theorem X10_respond_multi_chains_replies (texts : list PyVal) self rt rt' self'
    (rs : list Message.t) :
  respond_multi_each bot_respond texts self rt = (rt', inr (self', rs)) →
  calls rt'
  = (calls rt
     ++ reply_chain (Context.bot self) (Context.msg self)
          (Context.response self) texts rs)%list
  ∧ length rs = length texts
  ∧ Context.response self'
    = match last rs with
      | Some r => Some r
      | None => Context.response self
      end
  ∧ heap rt' = heap rt
  ∧ next_id rt' = next_id rt.
Proof.
  revert self rt rs. induction texts as [| text texts IH]; intros self rt rs.
  - simpl. intros [= <- <- <-]. by rewrite app_nil_r.
  - simpl. unfold mbind, M_bind, bind.
    destruct (Context.respond_multi bot_respond self [text] ∅ rt)
      as [rt1 [e | [self1 r]]] eqn:Hstep; [discriminate |].
    destruct (respond_multi_each bot_respond texts self1 rt1)
      as [rt2 [e | [self2 rs']]] eqn:Hrest; [discriminate |].
    intros [= <- <- <-].
    apply respond_multi_text_returns in Hstep as (-> & Hcalls & Hheap & Hnext).
    apply IH in Hrest as (Hcalls' & Hlen & Hlast & Hheap' & Hnext').
    simpl in *. rewrite Hcalls', Hcalls, <- app_assoc. simpl.
    split; [reflexivity |]. split; [by rewrite Hlen |].
    split; [| split; [by rewrite Hheap', Hheap | by rewrite Hnext', Hnext]].
    rewrite Hlast, last_cons. by destruct (last rs').
Qed.
End ReplyChain.

(* ===================================================================== *)
(** * The further properties on concrete inputs *)
(* ===================================================================== *)

Lemma sample_response_is_passed : "response" ∈ Context.passed_keywords.
Proof. apply list_elem_of_In. simpl. tauto. Qed.

(** X6 on [respond("A", response=None)]. *)
Lemma X6_response_keyword_raises :
  "response" ∈ Context.passed_keywords
  ∧ is_Some (sample_repeated !! "response")
  ∧ ∃ m, Context.respond sample_respond sample_ctx (VStr "A") VNone VNone VNone
           (VBool false) sample_repeated sample_rt
         = (sample_rt, inl (TypeError m)).
Proof.
  assert (Hsome : is_Some (sample_repeated !! "response")) by (by eexists).
  split; [exact sample_response_is_passed |]. split; [exact Hsome |].
  exact (X6_respond_rejects_repeated_keyword sample_respond sample_ctx
           (VStr "A") VNone VNone VNone (VBool false) sample_repeated
           "response" sample_rt sample_response_is_passed Hsome).
Defined.

Lemma sample_first_respond :
  Context.respond sample_respond sample_ctx (VStr "A") (VStr "reply") VNone
    VNone (VBool false) ∅ sample_rt
  = (after_call sample_rt 1%nat sample_bot
       (mkCall (VMsg sample_msg) (VStr "A") (VStr "reply") VNone None ∅),
     inr (sample_ctx_responded, sample_response)).
Proof. reflexivity. Qed.

(** X7 on a first response in mode "reply" followed by a call that asks for
    reuse in mode "edit": the modes differ, [None] is forwarded. *)
Lemma X7_reuse_in_another_mode :
  no_repeated_keyword ∅
  ∧ ∃ c w res,
      Context.respond sample_respond sample_ctx_responded (VStr "B")
        (VStr "edit") VNone VNone (VBool true) ∅
        (after_call sample_rt 1%nat sample_bot
           (mkCall (VMsg sample_msg) (VStr "A") (VStr "reply") VNone None ∅))
      = (after_call
           (after_call sample_rt 1%nat sample_bot
              (mkCall (VMsg sample_msg) (VStr "A") (VStr "reply") VNone None ∅))
           w sample_bot c,
         match res with
         | inr r2 => inr (responded sample_ctx r2 (VStr "edit"), r2)
         | inl e => inl e
         end)
      ∧ rc_response c = None.
Proof.
  split; [exact no_repeated_keyword_empty |].
  destruct (X7_respond_after_respond sample_respond sample_ctx
              sample_ctx_responded sample_response
              (VStr "A") (VStr "reply") VNone VNone (VBool false) ∅
              sample_rt _ (VStr "B") (VStr "edit") VNone VNone (VBool true) ∅
              no_repeated_keyword_empty sample_first_respond)
    as (c & w & res & Hrun & _ & Hfwd & _).
  exists c, w, res. split; [exact Hrun | exact Hfwd].
Defined.


(** X9 on [respond_multi("B", "reply")]: the mode cannot be given by
    position. *)
Lemma X9_mode_by_position_raises :
  (2 ≤ length [VStr "B"; VStr "reply"])%nat
  ∧ ∃ m, Context.respond_multi sample_respond sample_ctx_responded
           [VStr "B"; VStr "reply"] ∅ sample_rt
         = (sample_rt, inl (TypeError m)).
Proof.
  assert (Hlen : (2 ≤ length [VStr "B"; VStr "reply"])%nat) by (simpl; lia).
  split; [exact Hlen |].
  exact (X9_respond_multi_rejects_bad_arguments sample_respond
           sample_ctx_responded [VStr "B"; VStr "reply"] ∅ sample_rt
           (or_introl Hlen)).
Defined.

Lemma sample_two_texts_run :
  respond_multi_each sample_respond [VStr "A"; VStr "B"] sample_ctx sample_rt
  = (sample_rt_after_two,
     inr (sample_ctx_after_two, [sample_response; sample_response2])).
Proof. reflexivity. Qed.

(** X10 on [respond_multi("A")] then [respond_multi("B")] from a new
    [Context]. *)
Lemma X10_two_texts_chain :
  respond_multi_each sample_respond [VStr "A"; VStr "B"] sample_ctx sample_rt
  = (sample_rt_after_two,
     inr (sample_ctx_after_two, [sample_response; sample_response2]))
  ∧ calls sample_rt_after_two
    = [(sample_bot, sample_call_A); (sample_bot, sample_call_B)]
  ∧ Context.response sample_ctx_after_two = Some sample_response2.
Proof.
  split; [exact sample_two_texts_run |].
  destruct (X10_respond_multi_chains_replies sample_respond
              [VStr "A"; VStr "B"] sample_ctx sample_rt sample_rt_after_two
              sample_ctx_after_two [sample_response; sample_response2]
              sample_two_texts_run)
    as (Hcalls & _ & Hlast & _).
  split; [exact Hcalls | exact Hlast].
Defined.
